(** * ucd_to_harness: classifier, name resolver, process flattener and
      association engine

    A shallow embedding of the core of [ucd_to_harness.py] (the functions
    [detect_kind], [pull_name], [flatten_process_steps] and the indexing and
    association passes of [main]) together with the properties stated about
    them, and of what surrounds the core: [read_all_json] on decoded files,
    [sanitize_identifier], the document builders and the loops of [main]
    that write the service and pipeline documents.

    Conventions of the embedding.
    - A decoded JSON document is a value of the inductive type [json]. An
      integer literal is a [JInt]; a literal with a fraction or an exponent
      is a Python float and is carried as its [repr] text ([JFloat]), which
      determines the float.
    - A Python [dict] keeps insertion order and has unique keys: it is an
      association list, read with [dict_get] (first binding of the key).
    - A [str] is a Rocq [string]; a character stands for the code point of
      the same number, so the strings of the model are those over
      U+0000..U+00FF. [str.lower], [str.isspace] and the escaping rules of
      [repr] and [json.dumps] are written out on that range. *)

From Stdlib Require Import String Ascii ZArith List Bool Lia.
From stdpp Require Import base option list strings pretty gmap.

Local Open Scope string_scope.
Local Open Scope list_scope.

(** ** Python strings *)

Module PyStr.

Definition code (c : ascii) : nat := nat_of_ascii c.

Definition between (lo hi n : nat) : bool := (lo <=? n)%nat && (n <=? hi)%nat.

(** [str.lower] on one character: A-Z and the upper-case letters of
    Latin-1 (U+00C0..U+00DE without the multiplication sign U+00D7). *)
Definition lower_char (c : ascii) : ascii :=
  let n := code c in
  if between 65 90 n || between 192 214 n || between 216 222 n
  then ascii_of_nat (n + 32) else c.

Fixpoint lower (s : string) : string :=
  match s with
  | EmptyString => EmptyString
  | String c s' => String (lower_char c) (lower s')
  end.

(** [str.isspace] on one character. *)
Definition isspace (c : ascii) : bool :=
  let n := code c in
  between 9 13 n || between 28 32 n || (n =? 133)%nat || (n =? 160)%nat.

Fixpoint lstrip (s : string) : string :=
  match s with
  | EmptyString => EmptyString
  | String c s' => if isspace c then lstrip s' else s
  end.

Fixpoint rstrip (s : string) : string :=
  match s with
  | EmptyString => EmptyString
  | String c s' =>
      match rstrip s' with
      | EmptyString => if isspace c then EmptyString else String c EmptyString
      | r => String c r
      end
  end.

(** [s.strip()] *)
Definition strip (s : string) : string := rstrip (lstrip s).

Definition is_empty (s : string) : bool :=
  match s with EmptyString => true | _ => false end.

Fixpoint startswith (p s : string) : bool :=
  match p, s with
  | EmptyString, _ => true
  | String a p', String b s' => if Ascii.eqb a b then startswith p' s' else false
  | String _ _, EmptyString => false
  end.

(** [needle in hay] for two strings. *)
Fixpoint contains (needle hay : string) : bool :=
  startswith needle hay ||
  match hay with
  | EmptyString => false
  | String _ hay' => contains needle hay'
  end.

Fixpoint join (sep : string) (l : list string) : string :=
  match l with
  | [] => ""
  | [x] => x
  | x :: l' => x +:+ sep +:+ join sep l'
  end.

Definition hex_digit (n : nat) : ascii :=
  if (n <? 10)%nat then ascii_of_nat (48 + n) else ascii_of_nat (87 + n).

(** two lower-case hexadecimal digits of a code point below 256 *)
Definition hex2 (n : nat) : string :=
  String (hex_digit (n / 16)) (String (hex_digit (n mod 16)) EmptyString).

Definition dquote : ascii := "034"%char.
Definition squote : ascii := "039"%char.
Definition backslash : ascii := "092"%char.

Definition chr (c : ascii) : string := String c EmptyString.

Fixpoint has_char (c : ascii) (s : string) : bool :=
  match s with
  | EmptyString => false
  | String a s' => Ascii.eqb a c || has_char c s'
  end.

(** Characters that [repr] writes as they are. *)
Definition printable (n : nat) : bool :=
  between 32 126 n || (between 161 255 n && negb (n =? 173)%nat).

Definition repr_char (quote c : ascii) : string :=
  let n := code c in
  if Ascii.eqb c quote || Ascii.eqb c backslash then String backslash (chr c)
  else if (n =? 9)%nat then String backslash "t"
  else if (n =? 10)%nat then String backslash "n"
  else if (n =? 13)%nat then String backslash "r"
  else if printable n then chr c
  else String backslash ("x" +:+ hex2 n).

Fixpoint concat_map (f : ascii -> string) (s : string) : string :=
  match s with
  | EmptyString => EmptyString
  | String c s' => f c +:+ concat_map f s'
  end.

(** [repr(s)] of a string: single quotes, unless the text has a single
    quote and no double quote. *)
Definition repr (s : string) : string :=
  let quote := if has_char squote s && negb (has_char dquote s)
               then dquote else squote in
  chr quote +:+ concat_map (repr_char quote) s +:+ chr quote.

(** One character of a [json.dumps] string literal ([ensure_ascii]). *)
Definition json_char (c : ascii) : string :=
  let n := code c in
  if Ascii.eqb c dquote || Ascii.eqb c backslash then String backslash (chr c)
  else if (n =? 10)%nat then String backslash "n"
  else if (n =? 13)%nat then String backslash "r"
  else if (n =? 9)%nat then String backslash "t"
  else if (n =? 8)%nat then String backslash "b"
  else if (n =? 12)%nat then String backslash "f"
  else if between 32 126 n then chr c
  else String backslash ("u00" +:+ hex2 n).

Definition json_quote (s : string) : string :=
  chr dquote +:+ concat_map json_char s +:+ chr dquote.

End PyStr.

(** ** Python dictionaries (insertion-ordered, unique keys) *)

Abbreviation pydict V := (list (string * V)).

Section Dict.
Context {V : Type}.

(** [d.get(k)] / [d[k]] when present *)
Fixpoint dict_get (d : pydict V) (k : string) : option V :=
  match d with
  | [] => None
  | (k', v) :: d' => if String.eqb k' k then Some v else dict_get d' k
  end.

(** [k in d] *)
Definition dict_has (d : pydict V) (k : string) : bool :=
  match dict_get d k with Some _ => true | None => false end.

(** [list(d.keys())] *)
Definition dict_keys (d : pydict V) : list string := map fst d.

(** [d[k] = v]: an existing key keeps its position, a new one goes last. *)
Fixpoint dict_set (d : pydict V) (k : string) (v : V) : pydict V :=
  match d with
  | [] => [(k, v)]
  | (k', v') :: d' =>
      if String.eqb k' k then (k', v) :: d' else (k', v') :: dict_set d' k v
  end.

(** [d.setdefault(k, v)], for its effect on [d] *)
Definition dict_setdefault (d : pydict V) (k : string) (v : V) : pydict V :=
  if dict_has d k then d else dict_set d k v.

End Dict.

(** ** Decoded JSON values *)

Unset Elimination Schemes.
Inductive json : Type :=
| JNull
| JBool (b : bool)
| JInt (n : Z)
| JFloat (r : string)
| JStr (s : string)
| JArr (xs : list json)
| JObj (kvs : list (string * json)).
Set Elimination Schemes.


Module Py.
Import PyStr.

(** Truth value of a decoded JSON value. *)
Definition truthy (v : json) : bool :=
  match v with
  | JNull => false
  | JBool b => b
  | JInt n => negb (n =? 0)%Z
  | JFloat r => negb (String.eqb r "0.0" || String.eqb r "-0.0")
  | JStr s => negb (is_empty s)
  | JArr xs => match xs with [] => false | _ => true end
  | JObj kvs => match kvs with [] => false | _ => true end
  end.

(** [d.get(k)]: absent keys read as [None] *)
Definition get (d : pydict json) (k : string) : json :=
  match dict_get d k with Some v => v | None => JNull end.

(** [a or b] *)
Definition or (a b : json) : json := if truthy a then a else b.

(** [repr(v)] *)
Fixpoint repr (v : json) : string :=
  match v with
  | JNull => "None"
  | JBool true => "True"
  | JBool false => "False"
  | JInt n => pretty n
  | JFloat r => r
  | JStr s => PyStr.repr s
  | JArr xs => "[" +:+ join ", " (map repr xs) +:+ "]"
  | JObj kvs =>
      "{" +:+ join ", " (map (fun kv => match kv with
                                        | (k, x) => PyStr.repr k +:+ ": " +:+ repr x
                                        end) kvs) +:+ "}"
  end.

(** [str(v)] *)
Definition str (v : json) : string :=
  match v with
  | JStr s => s
  | _ => repr v
  end.

Definition float_json (r : string) : string :=
  if String.eqb r "nan" then "NaN"
  else if String.eqb r "inf" then "Infinity"
  else if String.eqb r "-inf" then "-Infinity"
  else r.

(** insertion of a rendered item into a list sorted by key *)
Fixpoint insert_item (it : string * string) (l : list (string * string))
  : list (string * string) :=
  match l with
  | [] => [it]
  | it' :: l' =>
      if String.leb (fst it) (fst it') then it :: l else it' :: insert_item it l'
  end.

Definition sort_items (l : list (string * string)) : list (string * string) :=
  fold_right insert_item [] l.

(** [json.dumps(v, sort_keys=sort_keys)] with the default separators *)
Fixpoint dumps (sort_keys : bool) (v : json) : string :=
  match v with
  | JNull => "null"
  | JBool true => "true"
  | JBool false => "false"
  | JInt n => pretty n
  | JFloat r => float_json r
  | JStr s => json_quote s
  | JArr xs => "[" +:+ join ", " (map (dumps sort_keys) xs) +:+ "]"
  | JObj kvs =>
      let items := map (fun kv => match kv with
                                  | (k, x) => (k, dumps sort_keys x)
                                  end) kvs in
      let items := if sort_keys then sort_items items else items in
      "{" +:+ join ", " (map (fun it => json_quote (fst it) +:+ ": " +:+ snd it) items)
          +:+ "}"
  end.

End Py.

(** ** Entity classifier: [detect_kind] *)

Inductive kind : Type := application | component | environment | process | unknown.

Definition type_keys : list string := ["objectType"; "class"; "entityType"; "type"].

(** The four tests made on one lower-cased declared-type value. *)
Definition kind_of_type_value (v : string) : option kind :=
  if PyStr.contains "application" v && negb (PyStr.contains "template" v) then Some application
  else if PyStr.contains "component" v && negb (PyStr.contains "template" v) then Some component
  else if PyStr.contains "environment" v then Some environment
  else if PyStr.contains "process" v then Some process
  else None.

(** The loop over the declared-type keys: the first key whose string value
    passes one of the tests decides. *)
Fixpoint declared_kind (keys : list string) (obj : pydict json) : option kind :=
  match keys with
  | [] => None
  | key :: keys' =>
      match dict_get obj key with
      | Some (JStr s) =>
          match kind_of_type_value (PyStr.lower s) with
          | Some k => Some k
          | None => declared_kind keys' obj
          end
      | _ => declared_kind keys' obj
      end
  end.

(** Path-based hints, on the lower-cased path text. *)
Definition path_kind (pstr : string) : option kind :=
  if PyStr.contains "applications" pstr && negb (PyStr.contains "process" pstr) then Some application
  else if PyStr.contains "components" pstr && negb (PyStr.contains "template" pstr) then Some component
  else if PyStr.contains "environments" pstr then Some environment
  else if PyStr.contains "process" pstr || PyStr.contains "processes" pstr then Some process
  else None.

(** Key-based hints. *)
Definition key_kind (obj : pydict json) : option kind :=
  if dict_has obj "components" && dict_has obj "environments" then Some application
  else if dict_has obj "component" || dict_has obj "componentName" then Some component
  else if dict_has obj "environment" || dict_has obj "environmentName" then Some environment
  else if dict_has obj "steps" || dict_has obj "rootActivity" then Some process
  else None.

Definition detect_kind (obj : pydict json) (path : string) : kind :=
  match declared_kind type_keys obj with
  | Some k => k
  | None =>
      match path_kind (PyStr.lower path) with
      | Some k => k
      | None =>
          match key_kind obj with
          | Some k => k
          | None => unknown
          end
      end
  end.

(** ** Name resolver: [pull_name] *)

Definition name_keys : list string :=
  ["name"; "application"; "applicationName"; "component"; "componentName";
   "environment"; "environmentName"; "displayName"].

(** First loop: the first key whose value is a string that is not blank. *)
Fixpoint first_name (keys : list string) (obj : pydict json) : option string :=
  match keys with
  | [] => None
  | k :: keys' =>
      match dict_get obj k with
      | Some (JStr s) =>
          if negb (PyStr.is_empty (PyStr.strip s)) then Some s else first_name keys' obj
      | _ => first_name keys' obj
      end
  end.

(** Second loop, over [obj.items()]: a string [name] inside a nested mapping. *)
Fixpoint nested_name (items : pydict json) : option string :=
  match items with
  | [] => None
  | (_, JObj d) :: items' =>
      match dict_get d "name" with
      | Some (JStr s) => Some s
      | _ => nested_name items'
      end
  | _ :: items' => nested_name items'
  end.

(** [uuid6] is the text [uuid.uuid4().hex[:6]] drawn by this call. *)
Definition pull_name (uuid6 : string) (obj : pydict json) : string :=
  match first_name name_keys obj with
  | Some s => s
  | None =>
      match nested_name obj with
      | Some s => s
      | None => "unnamed-" +:+ uuid6
      end
  end.

(** ** Process flattener: [flatten_process_steps] *)

Record step : Type := Step {
  step_name : string;
  step_description : string;
  step_properties : pydict json
}.

(** The descriptor appended for one visited mapping. *)
Definition step_of (node : pydict json) : step :=
  let name := Py.or (Py.or (Py.or (Py.get node "name") (Py.get node "commandName"))
                           (Py.get node "type")) (JStr "Step") in
  let props := Py.or (Py.or (Py.get node "properties") (Py.get node "propDefs")) (JObj []) in
  let desc := Py.or (Py.get node "description") (JStr "") in
  {| step_name := Py.str name;
     step_description := Py.str desc;
     step_properties := match props with JObj d => d | _ => [] end |}.

Definition child_keys : list string := ["children"; "next"; "steps"; "activities"].

(** [visit]: the descriptors appended to [steps] by one call, in order. The
    lookup [node.get(child_key)] is the inner loop over the bindings. *)
Fixpoint visit (node : json) : list step :=
  match node with
  | JObj kvs =>
      step_of kvs ::
      flat_map (fun child_key =>
        (fix get (d : pydict json) : list step :=
           match d with
           | [] => []
           | (k, child) :: d' =>
               if String.eqb k child_key then
                 match child with
                 | JArr cs => flat_map visit cs
                 | JObj _ => visit child
                 | _ => []
                 end
               else get d'
           end) kvs) child_keys
  | _ => []
  end.

(** The entry points, up to the end of the traversal. *)
Definition traverse (obj : pydict json) : list step :=
  match Py.get obj "rootActivity" with
  | JObj d => visit (JObj d)
  | _ =>
      match Py.get obj "steps" with
      | JArr l => flat_map visit l
      | _ =>
          match Py.get obj "activities" with
          | JArr l => flat_map visit l
          | _ => visit (JObj obj)
          end
      end
  end.

(** The deduplication key of a descriptor. *)
Definition step_key (s : step) : string * string :=
  (step_name s, Py.dumps true (JObj (step_properties s))).

Fixpoint dedup (seen : gset (string * string)) (steps : list step) : list step :=
  match steps with
  | [] => []
  | s :: steps' =>
      let k := step_key s in
      if decide (k ∈ seen) then dedup seen steps'
      else s :: dedup ({[k]} ∪ seen) steps'
  end.

Definition flatten_process_steps (obj : pydict json) : list step :=
  dedup ∅ (traverse obj).

(** ** Indexing pass of [main]: objects by kind and name *)

Record buckets : Type := Buckets {
  applications : pydict (pydict json);
  components : pydict (pydict json);
  environments : pydict (pydict json);
  processes : list (string * pydict json)
}.

Definition no_buckets : buckets :=
  {| applications := []; components := []; environments := []; processes := [] |}.

(** Body of the indexing loop for the item [(p, obj)]. *)
Definition index_item (uuid6 : string) (b : buckets) (p : string) (obj : pydict json)
  : buckets :=
  let kind := detect_kind obj p in
  let name := pull_name uuid6 obj in
  match kind with
  | application =>
      {| applications := dict_set (applications b) name obj;
         components := components b;
         environments := environments b;
         processes := processes b |}
  | component =>
      {| applications := applications b;
         components := dict_setdefault (components b) name obj;
         environments := environments b;
         processes := processes b |}
  | environment =>
      {| applications := applications b;
         components := components b;
         environments := dict_setdefault (environments b) name obj;
         processes := processes b |}
  | process =>
      {| applications := applications b;
         components := components b;
         environments := environments b;
         processes := processes b ++ [(name, obj)] |}
  | unknown => b
  end.

(** [uuid i] is the random text drawn while the [i]-th item is named. *)
Fixpoint index_loop (uuid : nat -> string) (i : nat)
    (items : list (string * pydict json)) (b : buckets) : buckets :=
  match items with
  | [] => b
  | (p, obj) :: items' => index_loop uuid (S i) items' (index_item (uuid i) b p obj)
  end.

Definition index_objects (uuid : nat -> string) (items : list (string * pydict json))
  : buckets :=
  index_loop uuid 0 items no_buckets.

(** ** Association pass of [main] *)

(** [("app", n)] and [("comp", n)] *)
Inductive owner : Type := OwnerApp (n : string) | OwnerComp (n : string).

(** One loop over explicit keys: the first key with a string value. *)
Fixpoint explicit_field (keys : list string) (pobj : pydict json) : option string :=
  match keys with
  | [] => None
  | key :: keys' =>
      match dict_get pobj key with
      | Some (JStr s) => Some s
      | _ => explicit_field keys' pobj
      end
  end.

(** The text searched by the heuristic. *)
Definition haystack (pname : string) (pobj : pydict json) : string :=
  PyStr.lower pname +:+ " " +:+ PyStr.lower (Py.dumps false (JObj pobj)).

Definition name_occurs (pname : string) (pobj : pydict json) (n : string) : bool :=
  PyStr.contains (PyStr.lower n) (haystack pname pobj).

Definition find_owner (app_names comp_names : list string)
    (pname : string) (pobj : pydict json) : option owner :=
  let owner0 : option owner := None in
  let owner1 :=
    match explicit_field ["application"; "applicationName"] pobj with
    | Some a => Some (OwnerApp a)
    | None => owner0
    end in
  let owner2 :=
    match explicit_field ["component"; "componentName"] pobj with
    | Some c => Some (OwnerComp c)
    | None => owner1
    end in
  let owner3 :=
    match owner2 with
    | None => OwnerApp <$> List.find (name_occurs pname pobj) app_names
    | Some _ => owner2
    end in
  match owner3 with
  | None => OwnerComp <$> List.find (name_occurs pname pobj) comp_names
  | Some _ => owner3
  end.

(** [m.setdefault(k, []).extend(steps)] *)
Definition extend (m : pydict (list step)) (k : string) (steps : list step)
  : pydict (list step) :=
  match dict_get m k with
  | Some l => dict_set m k (l ++ steps)
  | None => dict_set m k ([] ++ steps)
  end.

(** [{k: [] for k in d.keys()}] *)
Definition empty_lists {V A : Type} (d : pydict V) : pydict (list A) :=
  map (fun k => (k, [])) (dict_keys d).

(** Body of the loop over the processes; the state is the pair of
    [app_process_map] and [comp_process_map]. *)
Definition assign_process (app_names comp_names : list string)
    (maps : pydict (list step) * pydict (list step)) (p : string * pydict json)
  : pydict (list step) * pydict (list step) :=
  let steps := flatten_process_steps (snd p) in
  match find_owner app_names comp_names (fst p) (snd p) with
  | Some (OwnerApp a) => (extend (fst maps) a steps, snd maps)
  | Some (OwnerComp c) => (fst maps, extend (snd maps) c steps)
  | None => maps
  end.

Definition assign_processes (b : buckets)
  : pydict (list step) * pydict (list step) :=
  fold_left (assign_process (dict_keys (applications b)) (dict_keys (components b)))
            (processes b)
            (empty_lists (applications b), empty_lists (components b)).

Definition service_keys : list string :=
  ["components"; "componentList"; "applicationComponents"].

(** What one entry of a component list appends to [comps]. *)
Definition entry_names (it : json) : list string :=
  match it with
  | JObj d =>
      let nm := Py.or (Py.or (Py.get d "name") (Py.get d "component"))
                      (Py.get d "componentName") in
      if Py.truthy nm then [Py.str nm] else []
  | JStr s => [s]
  | _ => []
  end.

(** [comps] after the loop over the three keys. *)
Definition listed_components (aobj : pydict json) : list string :=
  flat_map (fun key =>
              match Py.get aobj key with
              | JArr v => flat_map entry_names v
              | _ => []
              end) service_keys.

Definition services_of (comps_known : pydict (pydict json)) (aobj : pydict json)
  : list string :=
  match listed_components aobj with
  | [] => dict_keys comps_known
  | comps => comps
  end.

Definition derive_services (b : buckets) : pydict (list string) :=
  fold_left (fun m app => dict_set m (fst app) (services_of (components b) (snd app)))
            (applications b)
            (empty_lists (applications b)).

(** [l or d] for lists *)
Definition or_list {A : Type} (l d : list A) : list A :=
  match l with [] => d | _ => l end.

(** [match or env_names[0]]; the index is read only when [match] is
    [None] or empty, and fails on an empty list. *)
Definition choose_env (env_names : list string) (app : string) : option string :=
  match List.find (fun e => PyStr.contains (PyStr.lower app) (PyStr.lower e)) env_names with
  | Some e => if PyStr.is_empty e then env_names !! 0%nat else Some e
  | None => env_names !! 0%nat
  end.

Fixpoint env_loop (env_names apps : list string) (app_env : pydict string)
  : option (pydict string) :=
  match apps with
  | [] => Some app_env
  | app :: apps' =>
      e ← choose_env env_names app;
      env_loop env_names apps' (dict_set app_env app e)
  end.

Definition select_envs (b : buckets) : option (pydict string) :=
  let env_names := or_list (dict_keys (environments b)) ["PlaceholderEnv"] in
  env_loop env_names (or_list (dict_keys (applications b)) ["PlaceholderApp"]) [].

Record association : Type := Association {
  app_process_map : pydict (list step);
  comp_process_map : pydict (list step);
  app_services : pydict (list string);
  app_env : pydict string
}.

(** The association engine; [None] stands for a raised exception. *)
Definition associate (b : buckets) : option association :=
  let maps := assign_processes b in
  let services := derive_services b in
  envs ← select_envs b;
  Some {| app_process_map := fst maps;
          comp_process_map := snd maps;
          app_services := services;
          app_env := envs |}.

(** ** Object graphs

    Inside the interpreter a list or a dict is reached through a reference,
    and two references may lead to the same object. The traversal of
    [flatten_process_steps] is written here over such a store, so that an
    input with a back-reference can be expressed. The recursion of [visit]
    is bounded by [fuel], the depth of calls available. *)

Module Graph.

Abbreviation ref := nat.

Inductive value : Type :=
| VNull
| VBool (b : bool)
| VInt (n : Z)
| VFloat (r : string)
| VStr (s : string)
| VRef (r : ref).

Inductive object : Type :=
| OList (xs : list value)
| ODict (kvs : pydict value).

(** The store: the object of reference [r] is the [r]-th entry. *)
Abbreviation heap := (list object).

Definition as_dict (h : heap) (v : value) : option (pydict value) :=
  match v with
  | VRef r => match h !! r with Some (ODict kvs) => Some kvs | _ => None end
  | _ => None
  end.

Definition as_list (h : heap) (v : value) : option (list value) :=
  match v with
  | VRef r => match h !! r with Some (OList xs) => Some xs | _ => None end
  | _ => None
  end.

(** [d.get(k)] *)
Definition get (d : pydict value) (k : string) : value :=
  match dict_get d k with Some v => v | None => VNull end.

(** [visit]: the references of the mappings for which a descriptor is
    appended, in order; [None] when the calls go deeper than [fuel]. *)
Fixpoint visit (fuel : nat) (h : heap) (node : value) : option (list ref) :=
  match fuel with
  | O => None
  | S fuel' =>
      match node with
      | VRef r =>
          match h !! r with
          | Some (ODict kvs) =>
              below ← mapM (fun child_key =>
                              let child := get kvs child_key in
                              match as_list h child with
                              | Some cs => @List.concat ref <$> mapM (visit fuel' h) cs
                              | None =>
                                  match as_dict h child with
                                  | Some _ => visit fuel' h child
                                  | None => Some []
                                  end
                              end) child_keys;
              Some (r :: List.concat below)
          | _ => Some []
          end
      | _ => Some []
      end
  end.

(** What [visit] does with the value found under one child key. *)
Definition visit_child (fuel : nat) (h : heap) (child : value) : option (list ref) :=
  match as_list h child with
  | Some cs => @List.concat ref <$> mapM (visit fuel h) cs
  | None =>
      match as_dict h child with
      | Some _ => visit fuel h child
      | None => Some []
      end
  end.

(** The entry points of [flatten_process_steps], for the mapping at [obj]. *)
Definition traverse (fuel : nat) (h : heap) (obj : ref) : option (list ref) :=
  kvs ← as_dict h (VRef obj);
  match as_dict h (get kvs "rootActivity") with
  | Some _ => visit fuel h (get kvs "rootActivity")
  | None =>
      match as_list h (get kvs "steps") with
      | Some l => @List.concat ref <$> mapM (visit fuel h) l
      | None =>
          match as_list h (get kvs "activities") with
          | Some l => @List.concat ref <$> mapM (visit fuel h) l
          | None => visit fuel h (VRef obj)
          end
      end
  end.








End Graph.

(** ** Vocabulary of the statements *)

(** The key [k] is absent from [obj], or is not a string, or is blank. *)
Definition blank_or_absent (obj : pydict json) (k : string) : Prop :=
  forall s, dict_get obj k = Some (JStr s) -> PyStr.strip s = "".

(** The value [v] is not a mapping with a string under [name]. *)
Definition no_nested_name (v : json) : Prop :=
  forall d s, v = JObj d -> dict_get d "name" <> Some (JStr s).

(** No declared-type test passes on the value of [key]. *)
Definition undeclared (obj : pydict json) (key : string) : Prop :=
  forall v, dict_get obj key = Some (JStr v) ->
            kind_of_type_value (PyStr.lower v) = None.

(** The kind and the name given to every item, in input order. *)
Fixpoint classify_loop (uuid : nat -> string) (i : nat)
    (items : list (string * pydict json)) : list (kind * string * pydict json) :=
  match items with
  | [] => []
  | (p, obj) :: items' =>
      (detect_kind obj p, pull_name (uuid i) obj, obj) :: classify_loop uuid (S i) items'
  end.

Definition classify (uuid : nat -> string) (items : list (string * pydict json))
  : list (kind * string * pydict json) :=
  classify_loop uuid 0 items.

Global Instance kind_eq_dec : EqDecision kind.
Proof. solve_decision. Defined.

(** The objects of kind [k] that resolve to the name [n], in input order. *)
Definition named (k : kind) (n : string) (cs : list (kind * string * pydict json))
  : list (pydict json) :=
  omap (fun c => if decide (c.1.1 = k /\ c.1.2 = n) then Some c.2 else None) cs.

(** The named process objects, in input order. *)
Definition named_processes (cs : list (kind * string * pydict json))
  : list (string * pydict json) :=
  omap (fun c => if decide (c.1.1 = process) then Some (c.1.2, c.2) else None) cs.

(** Two environment objects that resolve to the same name. *)
Definition env_first : pydict json :=
  [("name", JStr "prod"); ("type", JStr "environment"); ("region", JStr "east")].
Definition env_second : pydict json :=
  [("name", JStr "prod"); ("type", JStr "environment"); ("region", JStr "west")].

(** What [visit] does with the value found under one child key. *)
Definition visit_child (child : json) : list step :=
  match child with
  | JArr cs => flat_map visit cs
  | JObj d => visit (JObj d)
  | _ => []
  end.

Definition is_mapping (v : json) : bool :=
  match v with JObj _ => true | _ => false end.

Definition is_list (v : json) : bool :=
  match v with JArr _ => true | _ => false end.


(** Sibling steps used in the examples. *)
Definition build_step (n : Z) : json :=
  JObj [("name", JStr "Build"); ("properties", JObj [("target", JInt n)])].

(** The name of [app] occurs in the name [e], case folded. *)
Definition mentions (app e : string) : Prop :=
  PyStr.contains (PyStr.lower app) (PyStr.lower e) = true.

(** [e] is the environment the specification selects for [app] among
    [env_names]: the placeholder when there is none, the first one that
    mentions the application, or else the first one. *)
Definition chosen_env (env_names : list string) (app e : string) : Prop :=
  (env_names = [] /\ e = "PlaceholderEnv")
  \/ (exists l1 l2, env_names = l1 ++ e :: l2 /\ mentions app e /\
                    forall e', e' ∈ l1 -> ~ mentions app e')
  \/ (exists l, env_names = e :: l /\ forall e', e' ∈ env_names -> ~ mentions app e').




(** Buckets with an application, two components and two processes, the
    second of which names no owner and mentions none. *)
Definition owned_process : string * pydict json :=
  ("build", [("application", JStr "shop"); ("steps", JArr [JObj [("name", JStr "Build")]])]).

Definition stray_process : string * pydict json :=
  ("nightly", [("steps", JArr [JObj [("name", JStr "Sweep")]])]).

Definition shop_buckets : buckets :=
  {| applications := [("shop", [("name", JStr "shop")])];
     components := [("web", [("name", JStr "web")]); ("db", [("name", JStr "db")])];
     environments := [];
     processes := [owned_process; stray_process] |}.

(** ** Identifiers: [sanitize_identifier] *)

(** The class [[A-Za-z0-9]] *)
Definition is_alnum (c : ascii) : bool :=
  let n := PyStr.code c in
  PyStr.between 48 57 n || PyStr.between 65 90 n || PyStr.between 97 122 n.

Definition is_underscore (c : ascii) : bool := Ascii.eqb c "_"%char.

(** The class [[A-Za-z0-9_]] *)
Definition is_word_char (c : ascii) : bool := is_alnum c || is_underscore c.

(** [re.sub(r'[^A-Za-z0-9_]+', '_', s)]: every maximal run of characters
    outside the class becomes one underscore; [in_run] tells that the
    previous character was part of such a run. *)
Fixpoint sub_non_word (in_run : bool) (s : string) : string :=
  match s with
  | EmptyString => EmptyString
  | String c s' =>
      if is_word_char c then String c (sub_non_word false s')
      else if in_run then sub_non_word true s'
      else String "_"%char (sub_non_word true s')
  end.

Fixpoint lstrip_underscores (s : string) : string :=
  match s with
  | EmptyString => EmptyString
  | String c s' => if is_underscore c then lstrip_underscores s' else s
  end.

Fixpoint rstrip_underscores (s : string) : string :=
  match s with
  | EmptyString => EmptyString
  | String c s' =>
      match rstrip_underscores s' with
      | EmptyString => if is_underscore c then EmptyString else String c EmptyString
      | r => String c r
      end
  end.

(** [re.sub(r'^_+|_+$', '', s)], on a text without line breaks: the leading
    run and the trailing run of underscores are removed. *)
Definition trim_underscores (s : string) : string :=
  rstrip_underscores (lstrip_underscores s).

(** [uuid8] is the text [uuid.uuid4().hex[:8]] drawn by this call. *)
Definition sanitize_identifier (uuid8 : string) (name : string) : string :=
  let base := sub_non_word false (PyStr.strip name) in
  let base := trim_underscores base in
  if PyStr.is_empty base then "id_" +:+ uuid8 else base.

(** Every character of [s] passes the test [p]. *)
Fixpoint all_chars (p : ascii -> bool) (s : string) : bool :=
  match s with
  | EmptyString => true
  | String c s' => p c && all_chars p s'
  end.

(** Some character of [s] passes the test [p]. *)
Fixpoint some_char (p : ascii -> bool) (s : string) : bool :=
  match s with
  | EmptyString => false
  | String c s' => p c || some_char p s'
  end.

Definition first_char (s : string) : option ascii :=
  match s with
  | EmptyString => None
  | String c _ => Some c
  end.

Fixpoint last_char (s : string) : option ascii :=
  match s with
  | EmptyString => None
  | String c s' => match last_char s' with Some d => Some d | None => Some c end
  end.

(** Names used in the examples of [sanitize_identifier]. *)
Definition name_with_marks : string := "  my app--v2 (prod)! ".
Definition name_without_alnum : string := " -- ".

(** ** Document builders *)

(** [s[:n]] *)
Fixpoint take_chars (n : nat) (s : string) : string :=
  match n, s with
  | S n', String c s' => String c (take_chars n' s')
  | _, _ => EmptyString
  end.

Definition newline : string := PyStr.chr "010"%char.

(** The value reached from [doc] through the keys [keys], if every step is
    a mapping with the key. *)
Fixpoint at_path (doc : json) (keys : list string) : option json :=
  match keys with
  | [] => Some doc
  | k :: keys' =>
      match doc with
      | JObj d => match dict_get d k with Some v => at_path v keys' | None => None end
      | _ => None
      end
  end.

Definition build_service_yaml (uuid8 : string) (name project org deployment_type : string)
  : json :=
  let identifier := sanitize_identifier uuid8 name in
  JObj [("service",
         JObj [("name", JStr name);
               ("identifier", JStr identifier);
               ("orgIdentifier", JStr org);
               ("projectIdentifier", JStr project);
               ("serviceDefinition",
                JObj [("type", JStr deployment_type); ("spec", JObj [])])])].

Definition build_environment_yaml (uuid8 : string) (name project org : string) : json :=
  let identifier := sanitize_identifier uuid8 name in
  JObj [("environment",
         JObj [("name", JStr name);
               ("identifier", JStr identifier);
               ("orgIdentifier", JStr org);
               ("projectIdentifier", JStr project);
               ("type", JStr "PreProduction");
               ("tags", JObj []);
               ("variables", JArr [])])].

(** The list [comment_lines] of [step_to_shellscript_yaml]; a property value
    is written as [str] writes it. *)
Definition comment_lines (name : string) (properties : pydict json) : list string :=
  ["# UCD Step Placeholder"; "# Original Name: " +:+ name] ++
  match properties with
  | [] => []
  | _ =>
      map (fun kv => "# " +:+ fst kv +:+ ": " +:+ Py.str (snd kv)) (take 20 properties)
      ++ (if (20 <? length properties)%nat then ["# ... (truncated)"] else [])
  end.

Definition echo_line (name : string) : string :=
  "echo " +:+ PyStr.chr PyStr.dquote +:+ "Executing placeholder for UCD step: " +:+ name
          +:+ PyStr.chr PyStr.dquote.

(** The step read by [step_to_shellscript_yaml] is a descriptor of the
    flattener or the literal with the only key [name]; the function reads
    [name] and [properties], the latter with the default [{}]. *)
Definition step_to_shellscript_yaml (uuid8 : string) (s : step) : json :=
  let name := step_name s in
  let ident := take_chars 50 (sanitize_identifier uuid8 name) in
  let properties := step_properties s in
  let script := PyStr.join newline (comment_lines name properties ++ [echo_line name]) in
  JObj [("step",
         JObj [("type", JStr "ShellScript");
               ("name", JStr (take_chars 100 name));
               ("identifier", JStr ident);
               ("spec",
                JObj [("shell", JStr "Bash");
                      ("onDelegate", JBool true);
                      ("source",
                       JObj [("type", JStr "Inline");
                             ("spec", JObj [("script", JStr script)])]);
                      ("environmentVariables", JArr []);
                      ("outputVariables", JArr [])]);
               ("timeout", JStr "10m")])].

(** [{"name": "Deploy Placeholder"}] *)
Definition deploy_placeholder : step :=
  {| step_name := "Deploy Placeholder"; step_description := ""; step_properties := [] |}.

(** The stage built for the [i]-th service [svc]. A call of
    [sanitize_identifier] draws its own random text: [uuid] gives the draw
    of each call, named by its place ([2; i] the service reference of stage
    [i], [3; i; j] the [j]-th step of stage [i], [4; i] the identifier of
    stage [i]). *)
Definition stage_yaml (uuid : list nat -> string) (app_name env_id : string)
    (process_steps : list step) (deployment_type : string) (i : nat) (svc : string)
  : json :=
  let svc_id := sanitize_identifier (uuid [2; i]%nat) svc in
  let exec_steps :=
    or_list (imap (fun j s => step_to_shellscript_yaml (uuid [3; i; j]%nat) s) process_steps)
            [step_to_shellscript_yaml (uuid [3; i; 0]%nat) deploy_placeholder] in
  JObj [("stage",
         JObj [("name", JStr ("Deploy " +:+ svc));
               ("identifier",
                JStr (take_chars 63 (sanitize_identifier (uuid [4; i]%nat) ("Deploy_" +:+ svc))));
               ("description",
                JStr ("Auto-generated from UCD application '" +:+ app_name +:+ "'"));
               ("type", JStr "Deployment");
               ("spec",
                JObj [("deploymentType", JStr deployment_type);
                      ("service", JObj [("serviceRef", JStr svc_id)]);
                      ("environment", JObj [("environmentRef", JStr env_id)]);
                      ("execution", JObj [("steps", JArr exec_steps)])])])].

(** [uuid [0]] and [uuid [1]] are the draws for the identifiers of the
    application and of the environment. *)
Definition build_pipeline_yaml (uuid : list nat -> string) (app_name env_name : string)
    (service_names : list string) (process_steps : list step)
    (project org deployment_type : string) : json :=
  let app_id := sanitize_identifier (uuid [0]%nat) app_name in
  let env_id := sanitize_identifier (uuid [1]%nat) env_name in
  let stages :=
    imap (stage_yaml uuid app_name env_id process_steps deployment_type)
         (or_list service_names ["PlaceholderService"]) in
  JObj [("pipeline",
         JObj [("name", JStr app_name);
               ("identifier", JStr app_id);
               ("orgIdentifier", JStr org);
               ("projectIdentifier", JStr project);
               ("stages", JArr stages)])].

(** The stages of a pipeline document and the steps of a stage document. *)
Definition stages_of (doc : json) : list json :=
  match at_path doc ["pipeline"; "stages"] with
  | Some (JArr l) => l
  | _ => []
  end.

Definition steps_of (stage : json) : list json :=
  match at_path stage ["stage"; "spec"; "execution"; "steps"] with
  | Some (JArr l) => l
  | _ => []
  end.

(** The text under [keys], when it is a string. *)
Definition text_at (doc : json) (keys : list string) : option string :=
  match at_path doc keys with
  | Some (JStr s) => Some s
  | _ => None
  end.

(** ** Reading the export: [read_all_json] *)

(** A path found under the export root: the text up to the file name, with
    its separator, and the file name. *)
Record file_path : Type := FilePath {
  path_dir : string;
  path_name : string
}.

(** [str(p)] *)
Definition path_str (p : file_path) : string := path_dir p +:+ path_name p.

(** The file name cut at its last dot: the text before it and the text from
    it on. *)
Fixpoint split_last_dot (s : string) : option (string * string) :=
  match s with
  | EmptyString => None
  | String c s' =>
      match split_last_dot s' with
      | Some (a, b) => Some (String c a, b)
      | None => if Ascii.eqb c "."%char then Some (EmptyString, s) else None
      end
  end.

(** [(p.stem, p.suffix)]: the name is cut at its last dot when that dot is
    neither its first nor its last character; otherwise the suffix is
    empty. *)
Definition stem_suffix (name : string) : string * string :=
  match split_last_dot name with
  | Some (a, b) =>
      if negb (PyStr.is_empty a) && (1 <? String.length b)%nat then (a, b)
      else (name, EmptyString)
  | None => (name, EmptyString)
  end.

(** [p.with_name(f"{p.stem}_{i}{p.suffix}")] *)
Definition with_index (p : file_path) (i : nat) : file_path :=
  {| path_dir := path_dir p;
     path_name := fst (stem_suffix (path_name p)) +:+ "_" +:+ pretty i
                  +:+ snd (stem_suffix (path_name p)) |}.

(** What one file adds to [items]; [content] is the decoded document, or
    [None] when opening or decoding the file raised. *)
Definition expand_file (p : file_path) (content : option json)
  : list (file_path * pydict json) :=
  match content with
  | Some (JObj d) => [(p, d)]
  | Some (JArr l) =>
      omap id (imap (fun i entry =>
                       match entry with
                       | JObj d => Some (with_index p i, d)
                       | _ => None
                       end) l)
  | _ => []
  end.

(** [files] are the paths returned by [root.rglob("*.json")], in that
    order, each with its content. *)
Definition read_all_json (files : list (file_path * option json))
  : list (file_path * pydict json) :=
  flat_map (fun f => expand_file (fst f) (snd f)) files.

Definition is_digit (c : ascii) : bool := PyStr.between 48 57 (PyStr.code c).

Definition is_lower_letter (c : ascii) : bool := PyStr.between 97 122 (PyStr.code c).


(** A list-rooted file used in the examples. *)
Definition components_file : file_path :=
  {| path_dir := "/export/components/"; path_name := "all.json" |}.


Global Instance owner_eq_dec : EqDecision owner.
Proof. solve_decision. Defined.

(** The owner given to the process [p] when the known names are those of
    the buckets [b]. *)
Definition owner_in (b : buckets) (p : string * pydict json) : option owner :=
  find_owner (dict_keys (applications b)) (dict_keys (components b)) (fst p) (snd p).

(** The flattened steps of the processes of [procs] owned by [o],
    concatenated in the order of the processes. *)
Definition owned_steps (b : buckets) (o : owner) (procs : list (string * pydict json))
  : list step :=
  flat_map (fun p => if decide (owner_in b p = Some o)
                     then flatten_process_steps (snd p) else []) procs.

(** A process without explicit owner field. *)
Definition no_explicit_owner (pobj : pydict json) : Prop :=
  explicit_field ["application"; "applicationName"] pobj = None
  /\ explicit_field ["component"; "componentName"] pobj = None.

(** A process without explicit owner, named after nothing, whose text
    mentions the component [web] (and the application [shop] nowhere). *)
Definition restart_process : pydict json :=
  [("steps", JArr [JObj [("name", JStr "Restart web")]])].

(** ** Output pass of [main] *)

(** The loop over the components: for the [k]-th name, the document built
    and the name of the file it is written to, in the services directory.
    [uuid [10; k]] is the draw of the call of [sanitize_identifier] inside
    [build_service_yaml], [uuid [11; k]] the draw of the call that names the
    file. *)
Definition service_writes (uuid : list nat -> string) (b : buckets)
    (project org deployment_type : string) : list (string * json) :=
  imap (fun k comp_name =>
          (sanitize_identifier (uuid [11; k]%nat) comp_name +:+ ".yaml",
           build_service_yaml (uuid [10; k]%nat) comp_name project org deployment_type))
       (or_list (dict_keys (components b)) ["PlaceholderService"]).

(** The loop over the applications: [uuid [14; k]] is the draw for the file
    name, and the calls made while the [k]-th pipeline is built draw
    [uuid (15 :: k :: _)]. *)
Definition pipeline_writes (uuid : list nat -> string) (b : buckets) (r : association)
    (project org deployment_type : string) : list (string * json) :=
  imap (fun k app_name =>
          let env_name := default "PlaceholderEnv" (dict_get (app_env r) app_name) in
          let proc_steps := default [] (dict_get (app_process_map r) app_name) in
          let services :=
            default (dict_keys (components b)) (dict_get (app_services r) app_name) in
          (sanitize_identifier (uuid [14; k]%nat) app_name +:+ ".yaml",
           build_pipeline_yaml (fun site => uuid (15 :: k :: site)%nat)
                               app_name env_name services proc_steps
                               project org deployment_type))
       (or_list (dict_keys (applications b)) ["PlaceholderApp"]).

(** The files of a directory after the writes [writes], made in order into
    the empty directory: writing to an existing name replaces the file. *)
Definition written (writes : list (string * json)) : pydict json :=
  fold_left (fun files w => dict_set files (fst w) (snd w)) writes [].

(** Buckets with two components whose identifiers are equal. *)
Definition colliding_buckets : buckets :=
  {| applications := [];
     components := [("web app", [("name", JStr "web app")]);
                    ("web-app", [("name", JStr "web-app")])];
     environments := [];
     processes := [] |}.


(** * Properties *)

(** ** Dictionaries *)

Section DictFacts.
Context {V : Type}.
Implicit Types (d : pydict V) (k : string) (v : V).

Lemma dict_get_set_eq d k v : dict_get (dict_set d k v) k = Some v.
Proof.
  induction d as [|[k' v'] d IH]; simpl.
  - by rewrite String.eqb_refl.
  - destruct (String.eqb k' k) eqn:E; simpl; rewrite E; auto.
Qed.

Lemma dict_get_set_ne d k k' v :
  k <> k' -> dict_get (dict_set d k v) k' = dict_get d k'.
Proof.
  intros Hne. induction d as [|[k0 v0] d IH]; simpl.
  - apply String.eqb_neq in Hne. by rewrite Hne.
  - destruct (String.eqb k0 k) eqn:E; simpl.
    + apply String.eqb_eq in E. subst k0.
      apply String.eqb_neq in Hne. by rewrite Hne.
    + by rewrite IH.
Qed.

Lemma dict_get_set d k k' v :
  dict_get (dict_set d k v) k' = if decide (k = k') then Some v else dict_get d k'.
Proof.
  destruct (decide (k = k')) as [->|Hne].
  - apply dict_get_set_eq.
  - by apply dict_get_set_ne.
Qed.

Lemma dict_get_setdefault d k k' v :
  dict_get (dict_setdefault d k v) k' =
  match dict_get d k' with
  | Some x => Some x
  | None => if decide (k = k') then Some v else None
  end.
Proof.
  unfold dict_setdefault, dict_has.
  destruct (dict_get d k) eqn:E.
  - destruct (dict_get d k') eqn:E'; [done|].
    destruct (decide (k = k')); [congruence|done].
  - rewrite dict_get_set. destruct (decide (k = k')) as [<-|Hne].
    + by rewrite E.
    + by destruct (dict_get d k').
Qed.

Lemma dict_get_None_keys d k : dict_get d k = None <-> k ∉ dict_keys d.
Proof.
  induction d as [|[k' v'] d IH]; simpl.
  - split; [intros _; apply not_elem_of_nil | done].
  - rewrite not_elem_of_cons. destruct (String.eqb k' k) eqn:E.
    + apply String.eqb_eq in E. split; [done | intros [? _]; congruence].
    + apply String.eqb_neq in E. rewrite IH.
      split; [intros ?; split; [congruence | done] | by intros [_ ?]].
Qed.

Lemma dict_keys_set d k v :
  dict_keys (dict_set d k v) =
  if dict_has d k then dict_keys d else dict_keys d ++ [k].
Proof.
  unfold dict_has. induction d as [|[k' v'] d IH]; simpl; [done|].
  destruct (String.eqb k' k) eqn:E; simpl; [done|].
  rewrite IH. by destruct (dict_get d k).
Qed.

Lemma dict_set_NoDup d k v : NoDup (dict_keys d) -> NoDup (dict_keys (dict_set d k v)).
Proof.
  intros Hd. rewrite dict_keys_set. unfold dict_has.
  destruct (dict_get d k) eqn:E; [done|].
  apply NoDup_app. split_and!; [done | | apply NoDup_singleton].
  intros x Hx Hk. apply list_elem_of_singleton in Hk. subst x.
  by apply dict_get_None_keys in E.
Qed.


Lemma dict_get_elem d k v :
  NoDup (dict_keys d) -> (k, v) ∈ d -> dict_get d k = Some v.
Proof.
  induction d as [|[k' v'] d IH]; simpl; intros Hd Hin.
  - by apply elem_of_nil in Hin.
  - apply NoDup_cons in Hd as [Hk' Hd]. apply elem_of_cons in Hin as [Heq|Hin].
    + inversion Heq; subst. by rewrite String.eqb_refl.
    + destruct (String.eqb k' k) eqn:E; [|by apply IH].
      apply String.eqb_eq in E. subst k'. exfalso. apply Hk'.
      apply list_elem_of_fmap. by exists (k, v).
Qed.


End DictFacts.

(** ** Classifier *)

Lemma declared_kind_first l1 key l2 obj v k :
  dict_get obj key = Some (JStr v) ->
  kind_of_type_value (PyStr.lower v) = Some k ->
  (forall key', key' ∈ l1 -> undeclared obj key') ->
  declared_kind (l1 ++ key :: l2) obj = Some k.
Proof.
  intros Hget Hk. induction l1 as [|key0 l1 IH]; simpl; intros Hbefore.
  - by rewrite Hget, Hk.
  - assert (Hrest : declared_kind (l1 ++ key :: l2) obj = Some k).
    { apply IH. intros key' Hin. apply Hbefore. by right. }
    destruct (dict_get obj key0) as [[| | | |s| |]|] eqn:E; try done.
    rewrite (Hbefore key0 (ltac:(left)) s E). done.
Qed.

Lemma declared_kind_wins obj path k :
  declared_kind type_keys obj = Some k -> detect_kind obj path = k.
Proof. unfold detect_kind. by intros ->. Qed.

Lemma path_kind_second obj path k :
  declared_kind type_keys obj = None ->
  path_kind (PyStr.lower path) = Some k ->
  detect_kind obj path = k.
Proof. unfold detect_kind. by intros -> ->. Qed.

Lemma key_kind_last obj path :
  declared_kind type_keys obj = None ->
  path_kind (PyStr.lower path) = None ->
  detect_kind obj path = default unknown (key_kind obj).
Proof. unfold detect_kind. intros -> ->. by destruct (key_kind obj). Qed.

(** C4. The layers of the classifier are tried in strict priority order.
    When a declared-type key ([objectType], [class], [entityType], [type],
    in that order) has a string value that passes the test of a kind [k],
    and no earlier declared-type key passes any test, the object is
    classified [k] whatever its path says; and when no declared-type key
    decides, a kind indicated by the path is returned whatever the keys of
    the object are. *)
Theorem C4_declared_type_beats_path obj path l1 key l2 v k :
  type_keys = l1 ++ key :: l2 ->
  dict_get obj key = Some (JStr v) ->
  kind_of_type_value (PyStr.lower v) = Some k ->
  (forall key', key' ∈ l1 -> undeclared obj key') ->
  detect_kind obj path = k /\
  (forall obj' k',
      (forall key', key' ∈ type_keys -> undeclared obj' key') ->
      path_kind (PyStr.lower path) = Some k' ->
      detect_kind obj' path = k').
Proof.
  intros Hkeys Hget Hk Hbefore. split.
  - apply declared_kind_wins. rewrite Hkeys. by eapply declared_kind_first.
  - intros obj' k' Hnone Hpath. apply path_kind_second; [|done].
    clear -Hnone. revert Hnone. generalize type_keys as keys.
    induction keys as [|key0 keys IH]; simpl; intros Hnone; [done|].
    assert (Hrest : declared_kind keys obj' = None).
    { apply IH. intros key' Hin. apply Hnone. by right. }
    destruct (dict_get obj' key0) as [[| | | |s| |]|] eqn:E; try done.
    by rewrite (Hnone key0 (ltac:(left)) s E).
Qed.

(** The example of the specification: [{"objectType": "Component"}] under a
    path with [environments] is a component, although the path alone says
    environment. *)
Lemma C4_declared_type_beats_path_witness :
  detect_kind [("objectType", JStr "Component")] "export/environments/foo.json"
    = component /\
  path_kind (PyStr.lower "export/environments/foo.json") = Some environment.
Proof.
  split; [|reflexivity].
  refine (proj1 (C4_declared_type_beats_path
                   [("objectType", JStr "Component")] "export/environments/foo.json"
                   [] "objectType" ["class"; "entityType"; "type"] "Component" component
                   _ _ _ _)).
  - reflexivity.
  - reflexivity.
  - reflexivity.
  - intros key' Hin. by apply elem_of_nil in Hin.
Defined.

(** ** Process ownership *)

Lemma find_owner_explicit_component apps comps pname pobj c :
  explicit_field ["component"; "componentName"] pobj = Some c ->
  find_owner apps comps pname pobj = Some (OwnerComp c).
Proof. unfold find_owner. by intros ->. Qed.

(** C1. A process that carries a string [application] field and a string
    [component] field: the loop over the component keys runs after the loop
    over the application keys and assigns [owner] again, so the process is
    attributed to the component, not to the application. *)
Theorem C1_component_field_replaces_application apps comps pname a c :
  find_owner apps comps pname [("application", JStr a); ("component", JStr c)]
  = Some (OwnerComp c).
Proof. by apply find_owner_explicit_component. Qed.

(** ** Name resolver *)

Lemma strip_nonempty s : PyStr.strip s <> "" -> s <> "".
Proof. intros H ->. by apply H. Qed.

Lemma is_empty_false s : PyStr.is_empty s = false <-> s <> "".
Proof. by destruct s. Qed.

Lemma first_name_Some keys obj s :
  first_name keys obj = Some s ->
  exists l1 k l2,
    keys = l1 ++ k :: l2 /\ dict_get obj k = Some (JStr s) /\
    PyStr.strip s <> "" /\ (forall k', k' ∈ l1 -> blank_or_absent obj k').
Proof.
  induction keys as [|k keys IH]; simpl; [done|].
  intros H.
  assert (Hskip : blank_or_absent obj k -> first_name keys obj = Some s ->
                  exists l1 k0 l2, k :: keys = l1 ++ k0 :: l2 /\
                    dict_get obj k0 = Some (JStr s) /\ PyStr.strip s <> "" /\
                    (forall k', k' ∈ l1 -> blank_or_absent obj k')).
  { intros Hk Hrest. destruct (IH Hrest) as (l1 & k0 & l2 & -> & ? & ? & Hl1).
    exists (k :: l1), k0, l2. split_and!; try done.
    intros k' [->|Hin]%elem_of_cons; auto. }
  destruct (dict_get obj k) as [v|] eqn:E.
  - destruct v as [| | | |s0| |];
      try (apply Hskip; [intros s' Hs'; congruence | done]).
    destruct (PyStr.is_empty (PyStr.strip s0)) eqn:Hs0; simpl in H.
    + apply Hskip; [|done]. intros s' Hs'. rewrite E in Hs'.
      injection Hs' as <-. by destruct (PyStr.strip s0).
    + injection H as <-. exists [], k, keys. split_and!; try done.
      * by apply is_empty_false.
      * intros k' Hin. by apply elem_of_nil in Hin.
  - apply Hskip; [|done]. intros s' Hs'. congruence.
Qed.

Lemma first_name_None keys obj :
  first_name keys obj = None -> forall k, k ∈ keys -> blank_or_absent obj k.
Proof.
  induction keys as [|k0 keys IH]; simpl; intros H k Hin.
  - by apply elem_of_nil in Hin.
  - apply elem_of_cons in Hin as [->|Hin].
    + intros s Hs. rewrite Hs in H.
      destruct (PyStr.is_empty (PyStr.strip s)) eqn:Hs0; simpl in H; [|done].
      by destruct (PyStr.strip s).
    + apply IH; [|done].
      destruct (dict_get obj k0) as [[| | | |s0| |]|]; try done.
      by destruct (PyStr.is_empty (PyStr.strip s0)).
Qed.

Lemma nested_name_Some obj s :
  nested_name obj = Some s ->
  exists o1 k d o2,
    obj = o1 ++ (k, JObj d) :: o2 /\ dict_get d "name" = Some (JStr s) /\
    (forall kv, kv ∈ o1 -> no_nested_name kv.2).
Proof.
  induction obj as [|[k v] obj IH]; simpl; [done|].
  intros H.
  assert (Hskip : no_nested_name v -> nested_name obj = Some s ->
                  exists o1 k0 d o2, (k, v) :: obj = o1 ++ (k0, JObj d) :: o2 /\
                    dict_get d "name" = Some (JStr s) /\
                    (forall kv, kv ∈ o1 -> no_nested_name kv.2)).
  { intros Hv Hrest. destruct (IH Hrest) as (o1 & k0 & d & o2 & -> & ? & Ho1).
    exists ((k, v) :: o1), k0, d, o2. split_and!; try done.
    intros kv [->|Hin]%elem_of_cons; auto. }
  destruct v as [| | | | | |d]; try (apply Hskip; [intros ? ? ?; congruence | done]).
  destruct (dict_get d "name") as [v|] eqn:E.
  - destruct v as [| | | |s0| |];
      try (apply Hskip; [intros ? ? [= <-]; congruence | done]).
    injection H as <-. exists [], k, d, obj. split_and!; try done.
    intros kv Hin. by apply elem_of_nil in Hin.
  - apply Hskip; [intros ? ? [= <-]; congruence | done].
Qed.

Lemma nested_name_None obj :
  nested_name obj = None -> forall kv, kv ∈ obj -> no_nested_name kv.2.
Proof.
  induction obj as [|[k v] obj IH]; simpl; intros H kv Hin.
  - by apply elem_of_nil in Hin.
  - apply elem_of_cons in Hin as [->|Hin]; simpl.
    + intros d s ->. destruct (dict_get d "name") as [[| | | |s0| |]|]; congruence.
    + apply IH; [|done].
      destruct v as [| | | | | |d]; try done.
      destruct (dict_get d "name") as [[| | | |s0| |]|]; congruence.
Qed.

(** C3, as amended. For every mapping, the resolver is in one of three
    cases. (1) Some key of [name], [application], [applicationName],
    [component], [componentName], [environment], [environmentName],
    [displayName] holds a string that is not blank (not empty once the
    surrounding white space is stripped) and no earlier key of the list
    does: that string is returned, and it is not empty. (2) No key of the
    list holds such a string and some value of the mapping is itself a
    mapping with a string under [name]: the string of the first such value
    is returned. (3) Neither: the synthesized name is returned, and it is
    not empty. *)
Theorem C3_pull_name_cases uuid6 obj :
  (exists l1 k l2 s,
      name_keys = l1 ++ k :: l2 /\ dict_get obj k = Some (JStr s) /\
      PyStr.strip s <> "" /\ (forall k', k' ∈ l1 -> blank_or_absent obj k') /\
      pull_name uuid6 obj = s /\ s <> "")
  \/ ((forall k, k ∈ name_keys -> blank_or_absent obj k) /\
      exists o1 k d o2 s,
        obj = o1 ++ (k, JObj d) :: o2 /\ dict_get d "name" = Some (JStr s) /\
        (forall kv, kv ∈ o1 -> no_nested_name kv.2) /\
        pull_name uuid6 obj = s)
  \/ ((forall k, k ∈ name_keys -> blank_or_absent obj k) /\
      (forall kv, kv ∈ obj -> no_nested_name kv.2) /\
      pull_name uuid6 obj = "unnamed-" +:+ uuid6 /\
      pull_name uuid6 obj <> "").
Proof.
  unfold pull_name. destruct (first_name name_keys obj) as [s|] eqn:E1.
  - left. destruct (first_name_Some _ _ _ E1) as (l1 & k & l2 & ? & ? & ? & ?).
    exists l1, k, l2, s. split_and!; try done. by apply strip_nonempty.
  - right. pose proof (first_name_None _ _ E1) as Hnone.
    destruct (nested_name obj) as [s|] eqn:E2.
    + left. split; [done|].
      destruct (nested_name_Some _ _ E2) as (o1 & k & d & o2 & ? & ? & ?).
      by exists o1, k, d, o2, s.
    + right. split_and!; try done. by apply nested_name_None.
Qed.

(** C3, as stated, fails twice. A blank [name] is a non-empty string, yet
    it is passed over for the next key; and an empty [name] inside a nested
    mapping is returned as it is, so the resolved name is empty. *)
Lemma C3_blank_name_skipped_empty_nested_name_returned :
  pull_name "a1b2c3" [("name", JStr "  "); ("application", JStr "billing")] = "billing"
  /\ pull_name "a1b2c3" [("meta", JObj [("name", JStr "")])] = "".
Proof. split; reflexivity. Qed.

(** ** Indexing pass *)

Lemma index_loop_spec uuid items : forall i b n,
  let b' := index_loop uuid i items b in
  let cs := classify_loop uuid i items in
  dict_get (applications b') n =
    match last (named application n cs) with
    | Some o => Some o
    | None => dict_get (applications b) n
    end
  /\ dict_get (components b') n =
    match dict_get (components b) n with
    | Some o => Some o
    | None => head (named component n cs)
    end
  /\ dict_get (environments b') n =
    match dict_get (environments b) n with
    | Some o => Some o
    | None => head (named environment n cs)
    end
  /\ processes b' = processes b ++ named_processes cs.
Proof.
  induction items as [|[p obj] items IH]; intros i b n; simpl.
  - split_and!; try done.
    + by destruct (dict_get (components b) n).
    + by destruct (dict_get (environments b) n).
    + by rewrite app_nil_r.
  - destruct (IH (S i) (index_item (uuid i) b p obj) n) as (Ha & Hc & He & Hp).
    rewrite Ha, Hc, He, Hp. clear Ha Hc He Hp IH.
    set (name := pull_name (uuid i) obj).
    unfold named, named_processes, index_item. simpl. fold name.
    destruct (detect_kind obj p); simpl;
      repeat (case_decide; simpl); try (exfalso; intuition congruence);
      rewrite ?dict_get_set, ?dict_get_setdefault, ?last_cons;
      repeat (case_decide; simpl); try (exfalso; intuition congruence);
      split_and!; try done;
      try (by repeat case_match);
      try (by rewrite <- app_assoc).
Qed.

(** C2, as amended. The buckets after the indexing pass: under a name, the
    applications bucket holds the last application object that resolves to
    it (a later one replaces an earlier one), the components bucket and the
    environments bucket hold the first such object (a later one is ignored),
    and every process object is kept, in input order. *)
Theorem C2_buckets_after_indexing uuid items n :
  let b := index_objects uuid items in
  let cs := classify uuid items in
  dict_get (applications b) n = last (named application n cs)
  /\ dict_get (components b) n = head (named component n cs)
  /\ dict_get (environments b) n = head (named environment n cs)
  /\ processes b = named_processes cs.
Proof.
  destruct (index_loop_spec uuid items 0 no_buckets n) as (Ha & Hc & He & Hp).
  simpl in *. unfold index_objects, classify.
  rewrite Ha, Hc, He, Hp. split_and!; try done.
  by destruct (last _).
Qed.

(** C2, as stated, fails for environments: of two environment objects that
    resolve to the same name, the first one stays in the bucket. *)
Lemma C2_first_environment_kept :
  env_first <> env_second /\
  environments
    (index_objects (fun _ => "a1b2c3")
       [("export/env_a.json", env_first); ("export/env_b.json", env_second)])
  = [("prod", env_first)].
Proof. split; [discriminate | reflexivity]. Qed.

(** ** Process flattener *)

Lemma visit_JObj kvs :
  visit (JObj kvs) =
  step_of kvs :: flat_map (fun child_key => visit_child (Py.get kvs child_key)) child_keys.
Proof.
  simpl. f_equal.
  repeat match goal with |- _ ++ _ = _ ++ _ => f_equal end; try reflexivity.
  all: unfold Py.get; induction kvs as [|[k child] kvs IH]; simpl; [done|].
  all: destruct (String.eqb k _); [by destruct child | done].
Qed.

Lemma visit_not_mapping v : is_mapping v = false -> visit v = [].
Proof. by destruct v. Qed.

Section Dedup.
Implicit Types (seen : gset (string * string)) (l : list step) (s : step).






End Dedup.


(** The two examples of the specification: identical sibling steps collapse
    to one descriptor, and steps with the same name and different
    properties stay apart. *)
Lemma flatten_identical_siblings_collapse :
  flatten_process_steps [("steps", JArr [build_step 1; build_step 1])]
  = [ {| step_name := "Build"; step_description := "";
         step_properties := [("target", JInt 1)] |} ].
Proof. vm_compute. reflexivity. Qed.

Lemma flatten_different_properties_remain :
  flatten_process_steps [("steps", JArr [build_step 1; build_step 2])]
  = [ {| step_name := "Build"; step_description := "";
         step_properties := [("target", JInt 1)] |};
      {| step_name := "Build"; step_description := "";
         step_properties := [("target", JInt 2)] |} ].
Proof. vm_compute. reflexivity. Qed.

Lemma dedup_empty_cons s l :
  dedup ∅ (s :: l) = s :: dedup {[step_key s]} l.
Proof.
  simpl. destruct (decide (step_key s ∈ (∅ : gset (string * string)))) as [H|_].
  - by apply not_elem_of_empty in H.
  - by rewrite (right_id_L ∅ (∪)).
Qed.

(** C10, as amended. The entry point is chosen by the shape of the values.
    When [rootActivity] is not a mapping (absent included): a list under
    [steps] is the entry point; when [steps] is not a list, a list under
    [activities] is; and when neither is a list, the object itself is
    visited as a node: its own descriptor comes first, followed by what its
    [children], [next], [steps] and [activities] values lead to, a list
    being visited element by element and a mapping as one node. A node that
    is not a mapping contributes no descriptor. *)
Theorem C10_entry_point_by_shape obj :
  is_mapping (Py.get obj "rootActivity") = false ->
  (forall l, Py.get obj "steps" = JArr l ->
             flatten_process_steps obj = dedup ∅ (flat_map visit l))
  /\ (is_list (Py.get obj "steps") = false ->
      forall l, Py.get obj "activities" = JArr l ->
                flatten_process_steps obj = dedup ∅ (flat_map visit l))
  /\ (is_list (Py.get obj "steps") = false ->
      is_list (Py.get obj "activities") = false ->
      flatten_process_steps obj =
      step_of obj ::
        dedup {[step_key (step_of obj)]}
              (flat_map (fun child_key => visit_child (Py.get obj child_key)) child_keys))
  /\ (forall v, is_mapping v = false -> visit v = []).
Proof.
  intros Hroot. unfold flatten_process_steps, traverse.
  destruct (Py.get obj "rootActivity") eqn:Er; try discriminate Hroot.
  all: split_and!; try (intros v Hv; by apply visit_not_mapping).
  all: try (intros l ->; done).
  all: try (intros Hs l Ha; destruct (Py.get obj "steps"); try discriminate Hs;
            by rewrite Ha).
  all: intros Hs Ha;
    destruct (Py.get obj "steps"); try discriminate Hs;
    destruct (Py.get obj "activities"); try discriminate Ha;
    by rewrite visit_JObj, dedup_empty_cons.
Qed.

(** A process whose [steps] value is a mapping, not a list. *)
Lemma C10_entry_point_by_shape_witness :
  is_mapping (Py.get [("steps", JObj [("name", JStr "x")])] "rootActivity") = false
  /\ flatten_process_steps [("steps", JObj [("name", JStr "x")])]
     = step_of [("steps", JObj [("name", JStr "x")])] ::
         dedup {[step_key (step_of [("steps", JObj [("name", JStr "x")])])]}
               (flat_map (fun child_key =>
                            visit_child (Py.get [("steps", JObj [("name", JStr "x")])] child_key))
                         child_keys).
Proof.
  split; [reflexivity|].
  refine (proj1 (proj2 (proj2
            (C10_entry_point_by_shape [("steps", JObj [("name", JStr "x")])] _))) _ _);
    reflexivity.
Defined.

(** C10, as stated, fails: with a mapping under [steps] the object has no
    usable entry point, yet the output is not a single implicit step, and
    the [steps] value is not ignored: it is visited as a child of the
    object. *)
Lemma C10_mapping_under_steps_is_visited :
  flatten_process_steps [("steps", JObj [("name", JStr "x")])]
  = [ {| step_name := "Step"; step_description := ""; step_properties := [] |};
      {| step_name := "x"; step_description := ""; step_properties := [] |} ].
Proof. vm_compute. reflexivity. Qed.

(** ** Association engine *)

Lemma find_first {A} (f : A -> bool) (l : list A) x :
  List.find f l = Some x ->
  exists l1 l2, l = l1 ++ x :: l2 /\ f x = true /\ forall y, y ∈ l1 -> f y = false.
Proof.
  induction l as [|a l IH]; simpl; [done|].
  destruct (f a) eqn:E.
  - intros [= ->]. exists [], l. split_and!; try done.
    intros y Hy. by apply elem_of_nil in Hy.
  - intros (l1 & l2 & -> & Hx & Hl1)%IH. exists (a :: l1), l2. split_and!; try done.
    intros y [->|Hy]%elem_of_cons; auto.
Qed.

Lemma find_all_false {A} (f : A -> bool) (l : list A) :
  List.find f l = None <-> forall y, y ∈ l -> f y = false.
Proof.
  induction l as [|a l IH]; simpl.
  - split; [|done]. intros _ y Hy. by apply elem_of_nil in Hy.
  - destruct (f a) eqn:E.
    + split; [done|]. intros H. rewrite (H a) in E; [done | left].
    + rewrite IH. split.
      * intros H y [->|Hy]%elem_of_cons; auto.
      * intros H y Hy. apply H. by right.
Qed.

Lemma contains_empty_needle hay : PyStr.contains "" hay = true.
Proof. by destruct hay. Qed.

Lemma contains_in_empty needle : PyStr.contains needle "" = true -> needle = "".
Proof. by destruct needle. Qed.

Lemma choose_env_spec names app :
  exists e, choose_env (or_list names ["PlaceholderEnv"]) app = Some e /\
            chosen_env names app e.
Proof.
  destruct names as [|e0 names].
  - exists "PlaceholderEnv". split; [|by left].
    unfold choose_env, or_list, List.find.
    by destruct (PyStr.contains (PyStr.lower app) (PyStr.lower "PlaceholderEnv")).
  - unfold choose_env. cbn [or_list].
    destruct (List.find _ (e0 :: names)) as [e|] eqn:E.
    + apply find_first in E as (l1 & l2 & Heq & He & Hl1).
      destruct (PyStr.is_empty e) eqn:Hempty.
      * exists e0. split; [done|]. destruct e; [|done].
        apply contains_in_empty in He.
        destruct l1 as [|e1 l1].
        { injection Heq as -> ->. right. left. exists [], l2. split_and!; try done.
          - unfold mentions. by rewrite He.
          - intros e' He'. by apply elem_of_nil in He'. }
        injection Heq as -> ->. specialize (Hl1 e1 (ltac:(left))).
        rewrite He, contains_empty_needle in Hl1. done.
      * exists e. split; [done|]. right. left. exists l1, l2. split_and!; try done.
        intros e' He' Hm. unfold mentions in Hm. by rewrite (Hl1 e' He') in Hm.
    + exists e0. split; [done|]. right. right. exists names. split; [done|].
      intros e' He' Hm. unfold mentions in Hm.
      by rewrite (proj1 (find_all_false _ _) E e' He') in Hm.
Qed.

Lemma env_loop_spec names apps : forall m,
  (forall app, is_Some (choose_env names app)) ->
  exists m', env_loop names apps m = Some m' /\
    forall app, dict_get m' app =
                if decide (app ∈ apps) then choose_env names app else dict_get m app.
Proof.
  induction apps as [|a apps IH]; cbn [env_loop]; intros m Htotal.
  - exists m. split; [done|]. intros app.
    case_decide as Hd; [by apply elem_of_nil in Hd | done].
  - destruct (Htotal a) as [e He]. rewrite He. cbn [mbind option_bind].
    destruct (IH (dict_set m a e) Htotal) as (m' & Hm' & Hget).
    exists m'. split; [done|]. intros app. rewrite Hget.
    destruct (decide (app ∈ apps)) as [Hin|Hin].
    + rewrite decide_True; [done | by right].
    + rewrite dict_get_set. destruct (decide (a = app)) as [->|Hne].
      * rewrite decide_True; [done | left].
      * rewrite decide_False; [done|].
        intros [->|?]%elem_of_cons; done.
Qed.

Lemma select_envs_spec b :
  exists envs, select_envs b = Some envs /\
    forall app, app ∈ dict_keys (applications b) ->
      exists e, dict_get envs app = Some e /\
                chosen_env (dict_keys (environments b)) app e.
Proof.
  unfold select_envs.
  set (names := dict_keys (environments b)).
  destruct (env_loop_spec (or_list names ["PlaceholderEnv"])
              (or_list (dict_keys (applications b)) ["PlaceholderApp"]) [])
    as (envs & Henvs & Hget).
  { intros app. destruct (choose_env_spec names app) as (e & -> & _). by eexists. }
  exists envs. split; [done|]. intros app Happ.
  destruct (choose_env_spec names app) as (e & He & Hchosen).
  exists e. split; [|done]. rewrite Hget, decide_True; [done|].
  destruct (dict_keys (applications b)); [by apply elem_of_nil in Happ | done].
Qed.

(** C6. The environment pass returns an environment for every application,
    and it is: the fixed placeholder when no environment is known; the first
    known environment, in iteration order, whose name contains the name of
    the application, case folded; or, when no environment name contains it,
    the first known environment. With the environments [prod-east] and
    [prod-west] and the application [east-app], the choice is [prod-east]. *)
Theorem C6_environment_selection b :
  (exists envs, select_envs b = Some envs /\
     forall app, app ∈ dict_keys (applications b) ->
       exists e, dict_get envs app = Some e /\
                 chosen_env (dict_keys (environments b)) app e)
  /\ choose_env ["prod-east"; "prod-west"] "east-app" = Some "prod-east".
Proof. split; [apply select_envs_spec | reflexivity]. Qed.



Section ServiceLoop.
Context {V W : Type} (f : V -> W).


End ServiceLoop.












(** ** Traversal over object graphs *)

Module GraphFacts.

(** *** The back-reference: the traversal never returns *)



(** *** Trees: the traversal returns the descriptors of [visit] *)

Section Trees.
Variable h : Graph.heap.















End Trees.
End GraphFacts.




(** ** Identifiers *)

Lemma space_not_alnum c : PyStr.isspace c = true -> is_alnum c = false.
Proof. destruct c as [[] [] [] [] [] [] [] []]; vm_compute; congruence. Qed.


Lemma underscore_not_alnum c : is_underscore c = true -> is_alnum c = false.
Proof. destruct c as [[] [] [] [] [] [] [] []]; vm_compute; congruence. Qed.

Lemma alnum_is_word c : is_alnum c = true -> is_word_char c = true.
Proof. unfold is_word_char. by intros ->. Qed.

Lemma sub_non_word_all_word s : forall in_run,
  all_chars is_word_char (sub_non_word in_run s) = true.
Proof.
  induction s as [|c s IH]; intros in_run; simpl; [done|].
  destruct (is_word_char c) eqn:Hc; simpl.
  - by rewrite Hc, IH.
  - destruct in_run; simpl; by rewrite ?IH.
Qed.

Lemma sub_non_word_alnum s : forall in_run,
  some_char is_alnum (sub_non_word in_run s) = some_char is_alnum s.
Proof.
  induction s as [|c s IH]; intros in_run; simpl; [done|].
  destruct (is_word_char c) eqn:Hc; simpl.
  - by rewrite IH.
  - assert (is_alnum c = false) as ->.
    { destruct (is_alnum c) eqn:Ha; [|done]. apply alnum_is_word in Ha. congruence. }
    destruct in_run; simpl; by rewrite IH.
Qed.

Lemma sub_non_word_id s : forall in_run,
  all_chars is_word_char s = true -> sub_non_word in_run s = s.
Proof.
  induction s as [|c s IH]; intros in_run; simpl; [done|].
  intros [Hc Hs]%andb_true_iff. rewrite Hc. by rewrite IH.
Qed.

Lemma lstrip_alnum s : some_char is_alnum (PyStr.lstrip s) = some_char is_alnum s.
Proof.
  induction s as [|c s IH]; simpl; [done|].
  destruct (PyStr.isspace c) eqn:Hc; [|done].
  by rewrite (space_not_alnum c Hc), IH.
Qed.

Lemma rstrip_alnum s : some_char is_alnum (PyStr.rstrip s) = some_char is_alnum s.
Proof.
  induction s as [|c s IH]; simpl; [done|].
  rewrite <- IH. destruct (PyStr.rstrip s) eqn:E; simpl; [|done].
  destruct (PyStr.isspace c) eqn:Hc; simpl.
  - by rewrite (space_not_alnum c Hc).
  - by rewrite orb_false_r.
Qed.

Lemma lstrip_underscores_all p s :
  all_chars p s = true -> all_chars p (lstrip_underscores s) = true.
Proof.
  induction s as [|c s IH]; simpl; [done|].
  intros [Hc Hs]%andb_true_iff. destruct (is_underscore c); [by apply IH|].
  simpl. by rewrite Hc, Hs.
Qed.

Lemma rstrip_underscores_all p s :
  all_chars p s = true -> all_chars p (rstrip_underscores s) = true.
Proof.
  induction s as [|c s IH]; simpl; [done|].
  intros [Hc Hs]%andb_true_iff. specialize (IH Hs).
  destruct (rstrip_underscores s) eqn:E.
  - destruct (is_underscore c); simpl; by rewrite ?Hc.
  - simpl in *. by rewrite Hc, IH.
Qed.

Lemma lstrip_underscores_alnum s :
  some_char is_alnum (lstrip_underscores s) = some_char is_alnum s.
Proof.
  induction s as [|c s IH]; simpl; [done|].
  destruct (is_underscore c) eqn:Hc; [|done].
  by rewrite (underscore_not_alnum c Hc), IH.
Qed.

Lemma rstrip_underscores_alnum s :
  some_char is_alnum (rstrip_underscores s) = some_char is_alnum s.
Proof.
  induction s as [|c s IH]; simpl; [done|].
  rewrite <- IH. destruct (rstrip_underscores s) eqn:E; simpl; [|done].
  destruct (is_underscore c) eqn:Hc; simpl.
  - by rewrite (underscore_not_alnum c Hc).
  - by rewrite orb_false_r.
Qed.

Lemma lstrip_underscores_first s c :
  first_char (lstrip_underscores s) = Some c -> is_underscore c = false.
Proof.
  induction s as [|a s IH]; simpl; [done|].
  destruct (is_underscore a) eqn:Ha; [done|]. simpl. by intros [= <-].
Qed.

Lemma rstrip_underscores_first s c :
  first_char (rstrip_underscores s) = Some c -> first_char s = Some c.
Proof.
  destruct s as [|a s]; simpl; [done|].
  destruct (rstrip_underscores s); [|done].
  by destruct (is_underscore a).
Qed.

Lemma rstrip_underscores_last s c :
  last_char (rstrip_underscores s) = Some c -> is_underscore c = false.
Proof.
  induction s as [|a s IH]; simpl; [done|].
  destruct (rstrip_underscores s) as [|b r] eqn:E.
  - destruct (is_underscore a) eqn:Ha; simpl; [done|]. by intros [= <-].
  - change (last_char (String a (String b r)))
      with (match last_char (String b r) with Some d => Some d | None => Some a end).
    destruct (last_char (String b r)) as [d|] eqn:Hl.
    + intros [= <-]. by apply IH.
    + simpl in Hl. by destruct (last_char r).
Qed.

Lemma some_char_nonempty p s : some_char p s = true -> s <> "".
Proof. by destruct s. Qed.

Lemma word_not_underscore_alnum c :
  is_word_char c = true -> is_underscore c = false -> is_alnum c = true.
Proof. unfold is_word_char. intros H Hu. rewrite Hu in H. by rewrite orb_false_r in H. Qed.

Lemma all_chars_first p s c :
  all_chars p s = true -> first_char s = Some c -> p c = true.
Proof. destruct s; simpl; [done|]. by intros [? _]%andb_true_iff [= <-]. Qed.

Lemma all_chars_last p s c :
  all_chars p s = true -> last_char s = Some c -> p c = true.
Proof.
  induction s as [|a s IH]; simpl; [done|].
  intros [Ha Hs]%andb_true_iff. destruct (last_char s) as [d|].
  - intros [= <-]. by apply IH.
  - by intros [= <-].
Qed.

Lemma nonempty_first_last s :
  s <> "" -> exists c d, first_char s = Some c /\ last_char s = Some d.
Proof.
  destruct s as [|a s]; [done|]. intros _. exists a. simpl.
  destruct (last_char s) as [d|]; by eexists.
Qed.

(** The text kept by [sanitize_identifier] before the fallback is tried. *)
Lemma sanitized_base name :
  let base := trim_underscores (sub_non_word false (PyStr.strip name)) in
  all_chars is_word_char base = true
  /\ some_char is_alnum base = some_char is_alnum name
  /\ (forall c, first_char base = Some c -> is_alnum c = true)
  /\ (forall c, last_char base = Some c -> is_alnum c = true).
Proof.
  intros base. unfold base, trim_underscores.
  assert (Hword : all_chars is_word_char
            (rstrip_underscores (lstrip_underscores
               (sub_non_word false (PyStr.strip name)))) = true).
  { apply rstrip_underscores_all, lstrip_underscores_all, sub_non_word_all_word. }
  split_and!.
  - done.
  - rewrite rstrip_underscores_alnum, lstrip_underscores_alnum, sub_non_word_alnum.
    unfold PyStr.strip. by rewrite rstrip_alnum, lstrip_alnum.
  - intros c Hc. apply word_not_underscore_alnum.
    + by eapply all_chars_first.
    + apply rstrip_underscores_first in Hc. by eapply lstrip_underscores_first.
  - intros c Hc. apply word_not_underscore_alnum.
    + by eapply all_chars_last.
    + by eapply rstrip_underscores_last.
Qed.

Lemma sanitize_alnum_shape uuid8 name :
  some_char is_alnum name = true ->
  let r := sanitize_identifier uuid8 name in
  (forall uuid8', sanitize_identifier uuid8' name = r)
  /\ r <> ""
  /\ all_chars is_word_char r = true
  /\ exists c d, first_char r = Some c /\ last_char r = Some d /\
                 is_alnum c = true /\ is_alnum d = true.
Proof.
  intros Halnum. destruct (sanitized_base name) as (Hword & Hsome & Hfirst & Hlast).
  rewrite Halnum in Hsome. pose proof (some_char_nonempty _ _ Hsome) as Hne.
  assert (Heq : forall u, sanitize_identifier u name
                = trim_underscores (sub_non_word false (PyStr.strip name))).
  { intros u. unfold sanitize_identifier.
    by destruct (trim_underscores (sub_non_word false (PyStr.strip name))). }
  simpl. rewrite Heq. split_and!; try done.
  destruct (nonempty_first_last _ Hne) as (c & d & Hc & Hd).
  exists c, d. split_and!; auto.
Qed.

(** X1. A name with at least one ASCII letter or digit: the identifier does
    not depend on the random draw, is not empty, consists of letters, digits
    and underscores only, and begins and ends with a letter or a digit. *)
Theorem sanitize_identifier_of_alnum_name uuid8 name :
  some_char is_alnum name = true ->
  let r := sanitize_identifier uuid8 name in
  (forall uuid8', sanitize_identifier uuid8' name = r)
  /\ r <> ""
  /\ all_chars is_word_char r = true
  /\ exists c d, first_char r = Some c /\ last_char r = Some d /\
                 is_alnum c = true /\ is_alnum d = true.
Proof. apply sanitize_alnum_shape. Qed.

Lemma sanitize_identifier_of_alnum_name_witness :
  some_char is_alnum name_with_marks = true
  /\ sanitize_identifier "0a1b2c3d" name_with_marks = "my_app_v2_prod"
  /\ sanitize_identifier "ffffffff" name_with_marks
     = sanitize_identifier "0a1b2c3d" name_with_marks.
Proof.
  split; [reflexivity|]. split; [reflexivity|].
  exact (proj1 (sanitize_identifier_of_alnum_name "0a1b2c3d" name_with_marks eq_refl)
           "ffffffff").
Defined.

Lemma sanitize_fallback_eq name :
  some_char is_alnum name = false ->
  (forall uuid8, sanitize_identifier uuid8 name = "id_" +:+ uuid8)
  /\ (forall u1 u2, sanitize_identifier u1 name = sanitize_identifier u2 name -> u1 = u2).
Proof.
  intros Hnone. destruct (sanitized_base name) as (Hword & Hsome & _ & _).
  rewrite Hnone in Hsome.
  assert (Heq : forall u, sanitize_identifier u name = "id_" +:+ u).
  { intros u. unfold sanitize_identifier.
    assert (trim_underscores (sub_non_word false (PyStr.strip name)) = "") as ->; [|done].
    destruct (trim_underscores (sub_non_word false (PyStr.strip name))) as [|c s] eqn:E;
      [done|].
    exfalso. simpl in Hsome, Hword.
    apply orb_false_iff in Hsome as [Hc Hs]. apply andb_true_iff in Hword as [Hw _].
    destruct (sanitized_base name) as (_ & _ & Hfirst & _).
    rewrite E in Hfirst. specialize (Hfirst c eq_refl). congruence. }
  split; [done|]. intros u1 u2. rewrite !Heq.
  intros H. by apply (inj (String.append "id_")) in H.
Qed.

(** X2. A name without any ASCII letter or digit: the identifier is [id_]
    followed by the random draw, so two calls on the same name give the same
    identifier only when they draw the same text. *)
Theorem sanitize_identifier_fallback name :
  some_char is_alnum name = false ->
  (forall uuid8, sanitize_identifier uuid8 name = "id_" +:+ uuid8)
  /\ (forall u1 u2, sanitize_identifier u1 name = sanitize_identifier u2 name -> u1 = u2).
Proof. apply sanitize_fallback_eq. Qed.

Lemma sanitize_identifier_fallback_witness :
  some_char is_alnum name_without_alnum = false
  /\ sanitize_identifier "0a1b2c3d" name_without_alnum = "id_0a1b2c3d".
Proof.
  split; [reflexivity|].
  exact (proj1 (sanitize_identifier_fallback name_without_alnum eq_refl) "0a1b2c3d").
Defined.

Lemma lstrip_id s c :
  first_char s = Some c -> PyStr.isspace c = false -> PyStr.lstrip s = s.
Proof. destruct s; simpl; [done|]. by intros [= ->] ->. Qed.

Lemma rstrip_id s : forall c,
  last_char s = Some c -> PyStr.isspace c = false -> PyStr.rstrip s = s.
Proof.
  induction s as [|a s IH]; intros c; simpl; [done|].
  destruct (last_char s) as [d|] eqn:Hl.
  - intros [= ->] Hc. rewrite (IH c eq_refl Hc). by destruct s.
  - intros [= ->] Hc. destruct s; [|simpl in Hl; by destruct (last_char s)].
    simpl. by rewrite Hc.
Qed.

Lemma lstrip_underscores_id s c :
  first_char s = Some c -> is_underscore c = false -> lstrip_underscores s = s.
Proof. destruct s; simpl; [done|]. by intros [= ->] ->. Qed.

Lemma rstrip_underscores_id s : forall c,
  last_char s = Some c -> is_underscore c = false -> rstrip_underscores s = s.
Proof.
  induction s as [|a s IH]; intros c; simpl; [done|].
  destruct (last_char s) as [d|] eqn:Hl.
  - intros [= ->] Hc. rewrite (IH c eq_refl Hc). by destruct s.
  - intros [= ->] Hc. destruct s; [|simpl in Hl; by destruct (last_char s)].
    simpl. by rewrite Hc.
Qed.

Lemma alnum_not_space c : is_alnum c = true -> PyStr.isspace c = false.
Proof.
  intros Hc. destruct (PyStr.isspace c) eqn:Hs; [|done].
  apply space_not_alnum in Hs. congruence.
Qed.

Lemma alnum_not_underscore c : is_alnum c = true -> is_underscore c = false.
Proof.
  intros Hc. destruct (is_underscore c) eqn:Hs; [|done].
  apply underscore_not_alnum in Hs. congruence.
Qed.

(** An identifier in final form is left as it is. *)
Lemma sanitize_identifier_fixed uuid8 r c d :
  all_chars is_word_char r = true ->
  first_char r = Some c -> is_alnum c = true ->
  last_char r = Some d -> is_alnum d = true ->
  sanitize_identifier uuid8 r = r.
Proof.
  intros Hword Hc Hac Hd Had. unfold sanitize_identifier, PyStr.strip, trim_underscores.
  rewrite (lstrip_id r c Hc (alnum_not_space c Hac)).
  rewrite (rstrip_id r d Hd (alnum_not_space d Had)).
  rewrite (sub_non_word_id r false Hword).
  rewrite (lstrip_underscores_id r c Hc (alnum_not_underscore c Hac)).
  rewrite (rstrip_underscores_id r d Hd (alnum_not_underscore d Had)).
  by destruct r.
Qed.

Lemma last_char_app s t : t <> "" -> last_char (s +:+ t) = last_char t.
Proof.
  intros Ht. induction s as [|a s IH]; simpl; [done|].
  rewrite IH. destruct (last_char t) eqn:E; [done|].
  destruct t as [|b t]; [done|]. simpl in E. by destruct (last_char t).
Qed.

Lemma all_chars_app p s t :
  all_chars p (s +:+ t) = all_chars p s && all_chars p t.
Proof. induction s as [|a s IH]; simpl; [done|]. by rewrite IH, andb_assoc. Qed.

(** X3. Sanitizing is idempotent: when the draw is a non-empty text of
    letters and digits (as the hexadecimal digits of a UUID are), an
    identifier returned by [sanitize_identifier] is returned unchanged when
    it is sanitized again, whatever is drawn then. *)
Theorem sanitize_identifier_idempotent uuid8 uuid8' name :
  uuid8 <> "" ->
  all_chars is_alnum uuid8 = true ->
  sanitize_identifier uuid8' (sanitize_identifier uuid8 name)
  = sanitize_identifier uuid8 name.
Proof.
  intros Hne Hhex. destruct (some_char is_alnum name) eqn:Halnum.
  - destruct (sanitize_alnum_shape uuid8 name Halnum)
      as (_ & _ & Hword & c & d & Hc & Hd & Hac & Had).
    by eapply sanitize_identifier_fixed.
  - rewrite (proj1 (sanitize_fallback_eq name Halnum) uuid8).
    destruct (nonempty_first_last uuid8 Hne) as (c & d & Hc & Hd).
    eapply (sanitize_identifier_fixed _ _ "i"%char d).
    + rewrite all_chars_app. simpl.
      clear -Hhex. induction uuid8 as [|a u IH]; simpl in *; [done|].
      apply andb_true_iff in Hhex as [Ha Hu]. by rewrite (alnum_is_word a Ha), IH.
    + done.
    + done.
    + by rewrite last_char_app.
    + by eapply all_chars_last.
Qed.

Lemma sanitize_identifier_idempotent_witness :
  sanitize_identifier "ffffffff" (sanitize_identifier "0a1b2c3d" name_without_alnum)
  = sanitize_identifier "0a1b2c3d" name_without_alnum.
Proof.
  apply sanitize_identifier_idempotent; [discriminate | reflexivity].
Defined.






(** ** Document builders *)

Lemma take_chars_length n s : (String.length (take_chars n s) <= n)%nat.
Proof.
  revert s. induction n as [|n IH]; intros [|c s]; simpl; try lia.
  specialize (IH s). lia.
Qed.





Lemma stage_yaml_steps uuid app_name env_id process_steps deployment_type i svc :
  steps_of (stage_yaml uuid app_name env_id process_steps deployment_type i svc)
  = or_list (imap (fun j s => step_to_shellscript_yaml (uuid [3; i; j]%nat) s) process_steps)
            [step_to_shellscript_yaml (uuid [3; i; 0]%nat) deploy_placeholder].
Proof. reflexivity. Qed.

Lemma or_list_length {A} (l d : list A) :
  length d = 1%nat -> length (or_list l d) = (length l `max` 1)%nat.
Proof. destruct l; simpl; lia. Qed.

(** X6. A pipeline document is never empty: it has one stage for each
    service name, or one stage when there is no service name, and every
    stage has one step for each process step, or one step when there is no
    process step. *)
Theorem pipeline_has_stages_and_steps uuid app_name env_name service_names
    process_steps project org deployment_type :
  let doc := build_pipeline_yaml uuid app_name env_name service_names process_steps
                                 project org deployment_type in
  length (stages_of doc) = (length service_names `max` 1)%nat
  /\ forall stage, stage ∈ stages_of doc ->
       length (steps_of stage) = (length process_steps `max` 1)%nat.
Proof.
  unfold stages_of, build_pipeline_yaml. cbn [at_path dict_get String.eqb Ascii.eqb Bool.eqb].
  split.
  - rewrite length_imap. by apply or_list_length.
  - intros stage (i & svc & -> & _)%elem_of_lookup_imap.
    rewrite stage_yaml_steps, or_list_length by done. by rewrite length_imap.
Qed.

Lemma rstrip_cons c s :
  PyStr.isspace c = false -> PyStr.rstrip (String c s) = String c (PyStr.rstrip s).
Proof. intros Hc. simpl. rewrite Hc. by destruct (PyStr.rstrip s). Qed.

Lemma rstrip_underscores_cons c s :
  is_underscore c = false ->
  rstrip_underscores (String c s) = String c (rstrip_underscores s).
Proof. intros Hc. simpl. rewrite Hc. by destruct (rstrip_underscores s). Qed.

Lemma sub_non_word_cons c s in_run :
  is_word_char c = true ->
  sub_non_word in_run (String c s) = String c (sub_non_word false s).
Proof. intros Hc. simpl. by rewrite Hc. Qed.

(** The identifier computed for the text [Deploy_svc]. *)
Lemma sanitize_deploy uuid8 svc :
  sanitize_identifier uuid8 ("Deploy_" +:+ svc)
  = "Deploy" +:+ rstrip_underscores
                   (String "_"%char (sub_non_word false (PyStr.rstrip svc))).
Proof.
  unfold sanitize_identifier, PyStr.strip, trim_underscores.
  change ("Deploy_" +:+ svc)
    with (String "D" (String "e" (String "p" (String "l" (String "o"
            (String "y" (String "_" svc))))))).
  change (PyStr.lstrip (String "D" ?s)) with (String "D" s).
  rewrite !rstrip_cons by reflexivity.
  rewrite !sub_non_word_cons by reflexivity.
  change (lstrip_underscores (String "D" ?s)) with (String "D" s).
  rewrite 6!rstrip_underscores_cons by reflexivity.
  reflexivity.
Qed.

(** X7. The identifier of a stage never comes from the random fallback: for
    every service name it is the same whatever is drawn, it begins with
    [Deploy], and it has at most 63 characters. *)
Theorem stage_identifier_deterministic uuid uuid' app_name env_id process_steps
    deployment_type i svc :
  exists ident,
    text_at (stage_yaml uuid app_name env_id process_steps deployment_type i svc)
            ["stage"; "identifier"] = Some ident
    /\ text_at (stage_yaml uuid' app_name env_id process_steps deployment_type i svc)
               ["stage"; "identifier"] = Some ident
    /\ PyStr.startswith "Deploy" ident = true
    /\ (String.length ident <= 63)%nat.
Proof.
  exists (take_chars 63 (sanitize_identifier (uuid [4; i]%nat) ("Deploy_" +:+ svc))).
  split; [reflexivity|]. split.
  - unfold text_at, stage_yaml. cbn [at_path dict_get String.eqb Ascii.eqb Bool.eqb].
    by rewrite !sanitize_deploy.
  - split; [|apply take_chars_length]. by rewrite sanitize_deploy.
Qed.

Lemma stages_of_pipeline uuid app_name env_name service_names process_steps
    project org deployment_type :
  stages_of (build_pipeline_yaml uuid app_name env_name service_names process_steps
                                 project org deployment_type)
  = imap (stage_yaml uuid app_name (sanitize_identifier (uuid [1%nat]) env_name)
                     process_steps deployment_type)
         (or_list service_names ["PlaceholderService"]).
Proof. reflexivity. Qed.

(** X8. The references of a pipeline match the documents built for the
    service and for the environment: for the [i]-th service name, when it
    has an ASCII letter or digit, the service reference of the [i]-th stage
    is the identifier of the service document built for that name; and when
    the environment name has one, the environment reference of every stage
    is the identifier of its environment document; whatever each call
    draws. *)
Theorem pipeline_references_match uuid u_svc u_env app_name env_name service_names
    process_steps project org deployment_type i svc stage :
  stages_of (build_pipeline_yaml uuid app_name env_name service_names process_steps
                                 project org deployment_type) !! i = Some stage ->
  service_names !! i = Some svc ->
  (some_char is_alnum svc = true ->
   text_at stage ["stage"; "spec"; "service"; "serviceRef"]
   = text_at (build_service_yaml u_svc svc project org deployment_type)
             ["service"; "identifier"])
  /\ (some_char is_alnum env_name = true ->
      text_at stage ["stage"; "spec"; "environment"; "environmentRef"]
      = text_at (build_environment_yaml u_env env_name project org)
                ["environment"; "identifier"]).
Proof.
  rewrite stages_of_pipeline, list_lookup_imap. intros Hstage Hsvc.
  assert (Hsame : or_list service_names ["PlaceholderService"] = service_names).
  { destruct service_names; [done | done]. }
  rewrite Hsame, Hsvc in Hstage. simpl in Hstage. injection Hstage as <-.
  split; intros Halnum.
  - unfold text_at, stage_yaml, build_service_yaml.
    cbn [at_path dict_get String.eqb Ascii.eqb Bool.eqb].
    by rewrite (proj1 (sanitize_alnum_shape u_svc svc Halnum) (uuid [2; i]%nat)).
  - unfold text_at, stage_yaml, build_environment_yaml.
    cbn [at_path dict_get String.eqb Ascii.eqb Bool.eqb].
    by rewrite (proj1 (sanitize_alnum_shape u_env env_name Halnum) (uuid [1%nat])).
Qed.

Lemma pipeline_references_match_witness :
  text_at (stage_yaml (fun _ => "0a1b2c3d") "Checkout"
             (sanitize_identifier "0a1b2c3d" "prod east") [] "Kubernetes" 0 "web app")
          ["stage"; "spec"; "service"; "serviceRef"]
  = text_at (build_service_yaml "ffffffff" "web app" "P" "O" "Kubernetes")
            ["service"; "identifier"].
Proof.
  refine (proj1 (pipeline_references_match (fun _ => "0a1b2c3d") "ffffffff" "ffffffff"
                   "Checkout" "prod east" ["web app"] [] "P" "O" "Kubernetes" 0 "web app"
                   _ _ _) _); reflexivity.
Defined.

(** ** Reading the export *)

Lemma append_cons c a t : String c a +:+ t = String c (a +:+ t).
Proof. reflexivity. Qed.

Lemma append_nil_r s : s +:+ "" = s.
Proof. induction s as [|c s IH]; [done|]. by rewrite append_cons, IH. Qed.

Lemma append_assoc a b c : (a +:+ b) +:+ c = a +:+ (b +:+ c).
Proof. induction a as [|x a IH]; [done|]. by rewrite !append_cons, IH. Qed.



Lemma lower_app a b : PyStr.lower (a +:+ b) = PyStr.lower a +:+ PyStr.lower b.
Proof. induction a as [|x a IH]; [done|]. rewrite append_cons. simpl. by rewrite IH. Qed.

Lemma split_last_dot_Some s a b :
  split_last_dot s = Some (a, b) ->
  s = a +:+ b /\ exists rest, b = String "."%char rest.
Proof.
  revert a b. induction s as [|c s IH]; intros a b; simpl; [done|].
  destruct (split_last_dot s) as [[a' b']|].
  - intros [= <- <-]. destruct (IH a' b' eq_refl) as [-> Hb]. by rewrite append_cons.
  - destruct (Ascii.eqb c ".") eqn:E; [|done].
    apply Ascii.eqb_eq in E. subst c. intros [= <- <-]. split; [done|]. by eexists.
Qed.

(** The name is its stem followed by its suffix, and a suffix that is not
    empty begins with a dot. *)
Lemma stem_suffix_split name :
  name = fst (stem_suffix name) +:+ snd (stem_suffix name)
  /\ (snd (stem_suffix name) = ""
      \/ exists rest, snd (stem_suffix name) = String "."%char rest).
Proof.
  unfold stem_suffix.
  destruct (split_last_dot name) as [[a b]|] eqn:E; simpl.
  - destruct (split_last_dot_Some _ _ _ E) as [Hname Hb].
    destruct (negb (PyStr.is_empty a) && (1 <? String.length b)%nat); simpl.
    + split; [done | by right].
    + split; [by rewrite append_nil_r | by left].
  - split; [by rewrite append_nil_r | by left].
Qed.

Lemma startswith_break h : forall a c b,
  PyStr.has_char c h = false ->
  PyStr.startswith h (a +:+ String c b) = PyStr.startswith h a.
Proof.
  induction h as [|x h IH]; intros a c b Hc; [by destruct a|].
  simpl in Hc. apply orb_false_iff in Hc as [Hx Hh].
  destruct a as [|y a].
  - simpl. by rewrite Hx.
  - rewrite append_cons. simpl. destruct (Ascii.eqb x y); [by apply IH | done].
Qed.

Lemma contains_in_nothing h : h <> "" -> PyStr.contains h "" = false.
Proof. by destruct h. Qed.

Lemma contains_break h a c b :
  h <> "" -> PyStr.has_char c h = false ->
  PyStr.contains h (a +:+ String c b) = PyStr.contains h a || PyStr.contains h b.
Proof.
  intros Hne Hc. induction a as [|y a IH].
  - rewrite (contains_in_nothing h Hne). simpl.
    destruct h as [|x h]; [done|]. simpl in *.
    apply orb_false_iff in Hc as [Hx _]. by rewrite Hx.
  - rewrite append_cons.
    change (PyStr.contains h (String y (a +:+ String c b)))
      with (PyStr.startswith h (String y (a +:+ String c b))
            || PyStr.contains h (a +:+ String c b)).
    change (PyStr.contains h (String y a))
      with (PyStr.startswith h (String y a) || PyStr.contains h a).
    rewrite IH, <- append_cons, (startswith_break h (String y a) c b Hc).
    by rewrite orb_assoc.
Qed.

Lemma letters_no_other_char h c :
  all_chars is_lower_letter h = true -> is_lower_letter c = false ->
  PyStr.has_char c h = false.
Proof.
  intros Hh Hc. induction h as [|x h IH]; simpl in *; [done|].
  apply andb_true_iff in Hh as [Hx Hh]. rewrite (IH Hh), orb_false_r.
  destruct (Ascii.eqb x c) eqn:E; [|done]. apply Ascii.eqb_eq in E. congruence.
Qed.

(** A text of characters other than lower-case letters in front of [y]
    holds no occurrence of a word of lower-case letters. *)
Lemma contains_skip h m y :
  h <> "" -> all_chars is_lower_letter h = true ->
  all_chars (fun c => negb (is_lower_letter c)) m = true ->
  PyStr.contains h (m +:+ y) = PyStr.contains h y.
Proof.
  intros Hne Hh. induction m as [|c m IH]; [done|]. intros Hcm. simpl in Hcm.
  apply andb_true_iff in Hcm as [Hc Hm]. apply negb_true_iff in Hc.
  rewrite append_cons.
  change (String c (m +:+ y)) with ("" +:+ String c (m +:+ y)).
  rewrite contains_break by (done || by apply letters_no_other_char).
  by rewrite (contains_in_nothing h Hne), IH.
Qed.

Lemma contains_insert h x m y :
  h <> "" -> all_chars is_lower_letter h = true ->
  m <> "" -> all_chars (fun c => negb (is_lower_letter c)) m = true ->
  (y = "" \/ exists rest, y = String "."%char rest) ->
  PyStr.contains h (x +:+ m +:+ y) = PyStr.contains h (x +:+ y).
Proof.
  intros Hne Hh Hm Hnl Hy.
  assert (Hnew : PyStr.contains h (x +:+ m +:+ y)
                 = PyStr.contains h x || PyStr.contains h y).
  { destruct m as [|c m]; [done|]. simpl in Hnl.
    apply andb_true_iff in Hnl as [Hc Hnl]. apply negb_true_iff in Hc.
    rewrite append_cons, contains_break by (done || by apply letters_no_other_char).
    by rewrite contains_skip. }
  rewrite Hnew. destruct Hy as [->|[rest ->]].
  - by rewrite append_nil_r, (contains_in_nothing h Hne), orb_false_r.
  - rewrite contains_break by (done || by apply letters_no_other_char).
    change (String "." rest) with ("." +:+ rest).
    by rewrite (contains_skip h "." rest).
Qed.

Lemma pretty_N_char_digit x : is_digit (pretty_N_char x) = true.
Proof. unfold pretty_N_char. by repeat case_match. Qed.

Lemma pretty_N_go_digits x : forall s,
  all_chars is_digit s = true -> all_chars is_digit (pretty_N_go x s) = true.
Proof.
  induction (N.lt_wf_0 x) as [x _ IH]; intros s Hs.
  destruct (decide (x = 0)%N) as [->|Hx]; [by rewrite pretty_N_go_0|].
  rewrite pretty_N_go_step by lia. apply IH.
  - apply N.div_lt; lia.
  - simpl. by rewrite pretty_N_char_digit, Hs.
Qed.

Lemma pretty_nat_digits (i : nat) : all_chars is_digit (pretty i) = true.
Proof.
  unfold pretty, pretty_nat, pretty, pretty_N.
  destruct (decide (N.of_nat i = 0%N)); [done|]. by apply pretty_N_go_digits.
Qed.

Lemma pretty_N_go_nonempty x : forall s, s <> "" -> pretty_N_go x s <> "".
Proof.
  induction (N.lt_wf_0 x) as [x _ IH]; intros s Hs.
  destruct (decide (x = 0)%N) as [->|Hx]; [by rewrite pretty_N_go_0|].
  rewrite pretty_N_go_step by lia. apply IH; [apply N.div_lt; lia | done].
Qed.

Lemma pretty_nat_nonempty (i : nat) : pretty i <> "".
Proof.
  unfold pretty, pretty_nat, pretty, pretty_N.
  destruct (decide (N.of_nat i = 0%N)) as [|Hi]; [done|].
  rewrite pretty_N_go_step by lia. by apply pretty_N_go_nonempty.
Qed.

Lemma digit_lower_not_letter c :
  is_digit c = true -> is_lower_letter (PyStr.lower_char c) = false.
Proof. destruct c as [[] [] [] [] [] [] [] []]; vm_compute; congruence. Qed.

Lemma lower_digits_not_letters s :
  all_chars is_digit s = true ->
  all_chars (fun c => negb (is_lower_letter c)) (PyStr.lower s) = true.
Proof.
  induction s as [|c s IH]; simpl; [done|].
  intros [Hc Hs]%andb_true_iff. by rewrite (digit_lower_not_letter c Hc), IH.
Qed.

Lemma lower_suffix_shape y :
  (y = "" \/ exists rest, y = String "."%char rest) ->
  PyStr.lower y = "" \/ exists rest, PyStr.lower y = String "."%char rest.
Proof. intros [->|[rest ->]]; [by left | right; by eexists]. Qed.

(** Inserting the index in front of the suffix changes no occurrence of a
    word of lower-case letters in the lower-cased path. *)
Lemma with_index_contains h p i :
  h <> "" -> all_chars is_lower_letter h = true ->
  PyStr.contains h (PyStr.lower (path_str (with_index p i)))
  = PyStr.contains h (PyStr.lower (path_str p)).
Proof.
  intros Hne Hh. destruct (stem_suffix_split (path_name p)) as [Hname Hsuffix].
  unfold path_str, with_index. cbn [path_dir path_name].
  rewrite Hname at 3.
  set (stem := fst (stem_suffix (path_name p))).
  set (suffix := snd (stem_suffix (path_name p))) in *.
  rewrite !lower_app.
  change (PyStr.lower "_") with "_".
  rewrite <- !append_assoc.
  rewrite (append_assoc _ "_" (PyStr.lower (pretty i))).
  rewrite (append_assoc _ ("_" +:+ PyStr.lower (pretty i)) (PyStr.lower suffix)).
  apply contains_insert; try done.
  - change ("_" +:+ PyStr.lower (pretty i)) with (String "_" (PyStr.lower (pretty i))).
    cbn [all_chars]. rewrite lower_digits_not_letters; [done|]. apply pretty_nat_digits.
  - by apply lower_suffix_shape.
Qed.

Lemma with_index_path_kind p i :
  path_kind (PyStr.lower (path_str (with_index p i)))
  = path_kind (PyStr.lower (path_str p)).
Proof.
  unfold path_kind. by rewrite !with_index_contains.
Qed.

(** X9. An element of a list-rooted file is classified as if it were read
    from the file itself: the path made for the [i]-th element, with the
    index put in front of the suffix, gives every object the kind that the
    path of the file gives it. *)
Theorem list_element_classified_like_file obj p i :
  detect_kind obj (path_str (with_index p i)) = detect_kind obj (path_str p).
Proof. unfold detect_kind. by rewrite with_index_path_kind. Qed.





(** ** Association engine: owners and accumulated steps *)

Lemma dict_get_extend m k k' steps :
  dict_get (extend m k steps) k' =
  if decide (k = k') then Some (default [] (dict_get m k) ++ steps) else dict_get m k'.
Proof.
  unfold extend. destruct (dict_get m k) as [l|] eqn:E; rewrite dict_get_set;
    by destruct (decide (k = k')).
Qed.

Lemma dict_get_empty_lists {V A} (d : pydict V) k :
  dict_get (empty_lists (A:=A) d) k = if decide (k ∈ dict_keys d) then Some [] else None.
Proof.
  unfold empty_lists, dict_keys. induction d as [|[k0 v0] d IH]; cbn [map fst dict_get].
  - case_decide as H; [by apply elem_of_nil in H | done].
  - destruct (String.eqb k0 k) eqn:E.
    + apply String.eqb_eq in E. subst.
      destruct (decide (k ∈ k :: map fst d)) as [H|H]; [done|].
      exfalso. apply H. left.
    + apply String.eqb_neq in E. rewrite IH.
      destruct (decide (k ∈ map fst d)) as [H1|H1],
               (decide (k ∈ k0 :: map fst d)) as [H2|H2]; try done.
      * exfalso. apply H2. by right.
      * exfalso. apply elem_of_cons in H2 as [->|?]; done.
Qed.

Lemma if_elem_here {A B} `{EqDecision A} (x : A) (l : list A) (u v : B) :
  (if decide (x ∈ x :: l) then u else v) = u.
Proof. case_decide as H; [done|]. exfalso. apply H. left. Qed.

Lemma if_elem_further {A B} `{EqDecision A} (x y : A) (l : list A) (u v : B) :
  y <> x ->
  (if decide (x ∈ y :: l) then u else v) = (if decide (x ∈ l) then u else v).
Proof.
  intros Hne.
  destruct (decide (x ∈ y :: l)) as [H1|H1], (decide (x ∈ l)) as [H2|H2]; try done.
  - exfalso. apply elem_of_cons in H1 as [->|?]; done.
  - exfalso. apply H1. by right.
Qed.

Lemma assign_process_get_app b maps p a :
  dict_get (fst (assign_process (dict_keys (applications b)) (dict_keys (components b))
                                maps p)) a
  = if decide (owner_in b p = Some (OwnerApp a))
    then Some (default [] (dict_get (fst maps) a) ++ flatten_process_steps (snd p))
    else dict_get (fst maps) a.
Proof.
  unfold assign_process. fold (owner_in b p).
  destruct (owner_in b p) as [[a'|c]|]; cbn [fst snd].
  - rewrite dict_get_extend.
    destruct (decide (a' = a)) as [->|Hne].
    + by rewrite decide_True.
    + by rewrite decide_False by congruence.
  - by rewrite decide_False.
  - by rewrite decide_False.
Qed.

Lemma assign_process_get_comp b maps p c :
  dict_get (snd (assign_process (dict_keys (applications b)) (dict_keys (components b))
                                maps p)) c
  = if decide (owner_in b p = Some (OwnerComp c))
    then Some (default [] (dict_get (snd maps) c) ++ flatten_process_steps (snd p))
    else dict_get (snd maps) c.
Proof.
  unfold assign_process. fold (owner_in b p).
  destruct (owner_in b p) as [[a|c']|]; cbn [fst snd].
  - by rewrite decide_False.
  - rewrite dict_get_extend.
    destruct (decide (c' = c)) as [->|Hne].
    + by rewrite decide_True.
    + by rewrite decide_False by congruence.
  - by rewrite decide_False.
Qed.

(** The step lists after the loop over [procs], started from [maps]. *)
Lemma assign_loop_spec b procs : forall maps,
  let maps' := fold_left (assign_process (dict_keys (applications b))
                                         (dict_keys (components b))) procs maps in
  (forall a, dict_get (fst maps') a =
     match dict_get (fst maps) a with
     | Some l => Some (l ++ owned_steps b (OwnerApp a) procs)
     | None => if decide (Some (OwnerApp a) ∈ owner_in b <$> procs)
               then Some (owned_steps b (OwnerApp a) procs) else None
     end)
  /\ (forall c, dict_get (snd maps') c =
     match dict_get (snd maps) c with
     | Some l => Some (l ++ owned_steps b (OwnerComp c) procs)
     | None => if decide (Some (OwnerComp c) ∈ owner_in b <$> procs)
               then Some (owned_steps b (OwnerComp c) procs) else None
     end).
Proof.
  induction procs as [|p procs IH]; intros maps; cbn [fold_left].
  - split; intros x; cbn [owned_steps flat_map fmap list_fmap];
      (destruct (decide (_ ∈ [])) as [H|_]; [by apply elem_of_nil in H|]);
      destruct (dict_get _ x); by rewrite ?app_nil_r.
  - destruct (IH (assign_process (dict_keys (applications b))
                                 (dict_keys (components b)) maps p)) as [Ha Hc].
    cbv zeta in *. split; intros x.
    + rewrite Ha, assign_process_get_app. clear Ha Hc IH.
      cbn [owned_steps flat_map fmap list_fmap].
      fold (owned_steps b (OwnerApp x) procs).
      destruct (decide (owner_in b p = Some (OwnerApp x))) as [Ho|Ho].
      * rewrite Ho, if_elem_here.
        destruct (dict_get (fst maps) x); cbn [default]; by rewrite ?app_assoc.
      * rewrite if_elem_further by done.
        by destruct (dict_get (fst maps) x).
    + rewrite Hc, assign_process_get_comp. clear Ha Hc IH.
      cbn [owned_steps flat_map fmap list_fmap].
      fold (owned_steps b (OwnerComp x) procs).
      destruct (decide (owner_in b p = Some (OwnerComp x))) as [Ho|Ho].
      * rewrite Ho, if_elem_here.
        destruct (dict_get (snd maps) x); cbn [default]; by rewrite ?app_assoc.
      * rewrite if_elem_further by done.
        by destruct (dict_get (snd maps) x).
Qed.

(** X11. The step list kept for an owner is the concatenation, in the order
    of the processes, of the flattened steps of the processes attributed to
    it. An application has a list when it is a known application or when
    some process is attributed to it (an explicit field may name an
    application that is not known); likewise for components. *)
Theorem owner_step_lists b :
  (forall a, dict_get (fst (assign_processes b)) a =
     if decide (a ∈ dict_keys (applications b)
                \/ Some (OwnerApp a) ∈ owner_in b <$> processes b)
     then Some (owned_steps b (OwnerApp a) (processes b)) else None)
  /\ (forall c, dict_get (snd (assign_processes b)) c =
     if decide (c ∈ dict_keys (components b)
                \/ Some (OwnerComp c) ∈ owner_in b <$> processes b)
     then Some (owned_steps b (OwnerComp c) (processes b)) else None).
Proof.
  destruct (assign_loop_spec b (processes b)
              (empty_lists (applications b), empty_lists (components b))) as [Ha Hc].
  unfold assign_processes. cbv zeta in *. split; intros x.
  - rewrite Ha. cbn [fst]. rewrite dict_get_empty_lists.
    destruct (decide (x ∈ dict_keys (applications b))) as [Hk|Hk].
    + rewrite decide_True; [done | by left].
    + destruct (decide (Some (OwnerApp x) ∈ owner_in b <$> processes b)) as [Ho|Ho].
      * rewrite decide_True; [done | by right].
      * rewrite decide_False; [done | by intros [?|?]].
  - rewrite Hc. cbn [snd]. rewrite dict_get_empty_lists.
    destruct (decide (x ∈ dict_keys (components b))) as [Hk|Hk].
    + rewrite decide_True; [done | by left].
    + destruct (decide (Some (OwnerComp x) ∈ owner_in b <$> processes b)) as [Ho|Ho].
      * rewrite decide_True; [done | by right].
      * rewrite decide_False; [done | by intros [?|?]].
Qed.

Lemma find_at {A} (f : A -> bool) l1 x l2 :
  f x = true -> (forall y, y ∈ l1 -> f y = false) ->
  List.find f (l1 ++ x :: l2) = Some x.
Proof.
  intros Hx. induction l1 as [|a l1 IH]; simpl; intros Hl1.
  - by rewrite Hx.
  - rewrite (Hl1 a) by left. apply IH. intros y Hy. apply Hl1. by right.
Qed.

(** X12. A process without a string under [application], [applicationName],
    [component] or [componentName] is attributed by the heuristic: to the
    first known application, in iteration order, whose lower-cased name
    occurs in the lower-cased text made of the process name, a space and
    the serialized process; and only when no application name occurs, to
    the first known component whose name occurs. *)
Theorem heuristic_owner_first_match app_names comp_names pname pobj :
  no_explicit_owner pobj ->
  (forall l1 a l2,
      app_names = l1 ++ a :: l2 ->
      name_occurs pname pobj a = true ->
      (forall a', a' ∈ l1 -> name_occurs pname pobj a' = false) ->
      find_owner app_names comp_names pname pobj = Some (OwnerApp a))
  /\ ((forall a, a ∈ app_names -> name_occurs pname pobj a = false) ->
      forall l1 c l2,
        comp_names = l1 ++ c :: l2 ->
        name_occurs pname pobj c = true ->
        (forall c', c' ∈ l1 -> name_occurs pname pobj c' = false) ->
        find_owner app_names comp_names pname pobj = Some (OwnerComp c)).
Proof.
  intros [Happ Hcomp]. unfold find_owner. rewrite Happ, Hcomp. split.
  - intros l1 a l2 -> Ha Hl1. by rewrite (find_at _ l1 a l2 Ha Hl1).
  - intros Hnone l1 c l2 -> Hc Hl1.
    rewrite (proj2 (find_all_false _ _) Hnone). simpl.
    by rewrite (find_at _ l1 c l2 Hc Hl1).
Qed.

Lemma heuristic_owner_first_match_witness :
  no_explicit_owner restart_process
  /\ find_owner ["shop"] ["db"; "web"] "nightly" restart_process = Some (OwnerComp "web").
Proof.
  assert (H : no_explicit_owner restart_process) by (split; reflexivity).
  split; [exact H|].
  refine (proj2 (heuristic_owner_first_match ["shop"] ["db"; "web"] "nightly"
                   restart_process H) _ ["db"] "web" [] eq_refl eq_refl _).
  - intros a Ha. apply list_elem_of_In in Ha. simpl in Ha.
    destruct Ha as [<-|[]]. reflexivity.
  - intros c Hc. apply list_elem_of_In in Hc. simpl in Hc.
    destruct Hc as [<-|[]]. reflexivity.
Defined.



Lemma service_loop_keeps {V W} (f : V -> W) (l : pydict V) : forall (m : pydict W) k,
  is_Some (dict_get m k) ->
  is_Some (dict_get (fold_left (fun m app => dict_set m (fst app) (f (snd app))) l m) k).
Proof.
  induction l as [|[k0 v0] l IH]; intros m k Hk; simpl; [done|].
  apply IH. rewrite dict_get_set. by destruct (decide (k0 = k)).
Qed.

(** X14. For every application of the buckets, the result of the
    association engine has a step list, a service list and an environment
    under its name: a lookup with a default, as the pipeline pass makes,
    never falls back for a known application. *)
Theorem every_application_associated b r a :
  associate b = Some r ->
  a ∈ dict_keys (applications b) ->
  dict_get (app_process_map r) a = Some (owned_steps b (OwnerApp a) (processes b))
  /\ is_Some (dict_get (app_services r) a)
  /\ exists e, dict_get (app_env r) a = Some e
               /\ chosen_env (dict_keys (environments b)) a e.
Proof.
  unfold associate. intros Hr Ha.
  destruct (select_envs_spec b) as (envs & Henvs & Hget).
  rewrite Henvs in Hr. simpl in Hr. injection Hr as <-. cbn.
  split_and!.
  - destruct (assign_loop_spec b (processes b)
                (empty_lists (applications b), empty_lists (components b))) as [Hm _].
    unfold assign_processes. cbv zeta in Hm. rewrite Hm. cbn [fst].
    by rewrite dict_get_empty_lists, decide_True.
  - unfold derive_services. apply service_loop_keeps.
    by rewrite dict_get_empty_lists, decide_True.
  - by apply Hget.
Qed.

Lemma every_application_associated_witness :
  exists r, associate shop_buckets = Some r
            /\ dict_get (app_process_map r) "shop"
               = Some (owned_steps shop_buckets (OwnerApp "shop") (processes shop_buckets)).
Proof.
  destruct (associate shop_buckets) as [r|] eqn:E; [|discriminate E].
  exists r. split; [reflexivity|].
  refine (proj1 (every_application_associated shop_buckets r "shop" E _)).
  apply list_elem_of_In. simpl. by left.
Defined.

(** ** Output pass *)

Lemma written_snoc ws w :
  written (ws ++ [w]) = dict_set (written ws) (fst w) (snd w).
Proof. unfold written. by rewrite fold_left_app. Qed.

Lemma written_NoDup ws : NoDup (dict_keys (written ws)).
Proof.
  induction ws as [|w ws IH] using rev_ind; [constructor|].
  rewrite written_snoc. by apply dict_set_NoDup.
Qed.

(** A file of the directory holds the document of the last write made
    under its name. *)
Lemma written_last ws p d :
  dict_get (written ws) p = Some d ->
  exists j, ws !! j = Some (p, d) /\
            forall j' d', (j < j')%nat -> ws !! j' <> Some (p, d').
Proof.
  induction ws as [|[p0 d0] ws IH] using rev_ind; [done|].
  rewrite written_snoc, dict_get_set. cbn [fst snd].
  destruct (decide (p0 = p)) as [->|Hne].
  - intros [= ->]. exists (length ws). split.
    + by rewrite lookup_app_r, Nat.sub_diag.
    + intros j' d' Hj. rewrite lookup_ge_None_2; [done|].
      rewrite length_app. simpl. lia.
  - intros (j & Hj & Hlast)%IH. exists j. split.
    + by apply lookup_app_l_Some.
    + intros j' d' Hlt Hw. apply lookup_app_Some in Hw as [Hw|[Hlen Hw]].
      * by apply (Hlast j' d').
      * apply list_lookup_singleton_Some in Hw as [_ [= ? ?]]. congruence.
Qed.

Lemma service_writes_lookup uuid b project org deployment_type j comp_name :
  dict_keys (components b) !! j = Some comp_name ->
  service_writes uuid b project org deployment_type !! j
  = Some (sanitize_identifier (uuid [11; j]%nat) comp_name +:+ ".yaml",
          build_service_yaml (uuid [10; j]%nat) comp_name project org deployment_type).
Proof.
  intros Hj. unfold service_writes. rewrite list_lookup_imap.
  destruct (dict_keys (components b)) as [|c cs] eqn:E; [done|].
  cbn [or_list]. by rewrite Hj.
Qed.

(** X15. When two known components get the same service file name, the
    file of the earlier one is overwritten: after the loop over the
    components no file of the services directory holds the document of the
    earlier component. *)
Theorem colliding_service_overwritten uuid b project org deployment_type k1 k2 c1 c2 :
  NoDup (dict_keys (components b)) ->
  dict_keys (components b) !! k1 = Some c1 ->
  dict_keys (components b) !! k2 = Some c2 ->
  (k1 < k2)%nat ->
  sanitize_identifier (uuid [11; k1]%nat) c1 = sanitize_identifier (uuid [11; k2]%nat) c2 ->
  forall file doc,
    (file, doc) ∈ written (service_writes uuid b project org deployment_type) ->
    text_at doc ["service"; "name"] <> Some c1.
Proof.
  intros Hnd Hk1 Hk2 Hlt Hsame file doc Hin Hname.
  apply (dict_get_elem _ _ _ (written_NoDup _)) in Hin.
  apply written_last in Hin as (j & Hj & Hlast).
  assert (Hkeys : dict_keys (components b) <> []) by (intros E; by rewrite E in Hk1).
  assert (Hcj : exists cj, dict_keys (components b) !! j = Some cj).
  { apply lookup_lt_is_Some. apply lookup_lt_Some in Hj.
    unfold service_writes in Hj. rewrite length_imap in Hj.
    by destruct (dict_keys (components b)). }
  destruct Hcj as [cj Hcj].
  rewrite (service_writes_lookup _ _ _ _ _ _ _ Hcj) in Hj. injection Hj as <- <-.
  assert (cj = c1) as -> by (by injection Hname).
  assert (j = k1) as -> by (by eapply NoDup_lookup).
  apply (Hlast k2 (build_service_yaml (uuid [10; k2]%nat) c2 project org deployment_type));
    [done|].
  rewrite (service_writes_lookup _ _ _ _ _ _ _ Hk2). by rewrite Hsame.
Qed.

Lemma colliding_service_overwritten_witness :
  ~ exists file doc,
      (file, doc) ∈ written (service_writes (fun _ => "0a1b2c3d") colliding_buckets
                                            "P" "O" "Kubernetes")
      /\ text_at doc ["service"; "name"] = Some "web app".
Proof.
  intros (file & doc & Hin & Hname).
  refine (colliding_service_overwritten (fun _ => "0a1b2c3d") colliding_buckets
            "P" "O" "Kubernetes" 0 1 "web app" "web-app" _ _ _ _ _ file doc Hin Hname).
  - apply NoDup_ListNoDup. repeat constructor; simpl; intuition discriminate.
  - reflexivity.
  - reflexivity.
  - lia.
  - reflexivity.
Defined.

Lemma derive_services_no_application b :
  applications b = [] -> derive_services b = [].
Proof. unfold derive_services. by intros ->. Qed.

(** X16. Without any application the pipeline pass writes exactly one
    pipeline, for the placeholder application: its file is
    [PlaceholderApp.yaml], and it has one stage for each known component, or
    one stage when no component is known. *)
Theorem placeholder_pipeline uuid b r project org deployment_type :
  applications b = [] ->
  associate b = Some r ->
  exists doc,
    pipeline_writes uuid b r project org deployment_type = [("PlaceholderApp.yaml", doc)]
    /\ text_at doc ["pipeline"; "name"] = Some "PlaceholderApp"
    /\ length (stages_of doc) = (length (components b) `max` 1)%nat.
Proof.
  intros Happs Hr. unfold associate in Hr.
  destruct (select_envs b) as [envs|]; [|done]. simpl in Hr. injection Hr as <-.
  unfold pipeline_writes. rewrite Happs. cbn [dict_keys map or_list imap].
  cbn [app_services app_env app_process_map].
  rewrite (derive_services_no_application b Happs). cbn [dict_get default].
  eexists. split; [reflexivity|]. split; [reflexivity|].
  rewrite stages_of_pipeline, length_imap, or_list_length by done.
  unfold dict_keys. by rewrite length_map.
Qed.

Lemma placeholder_pipeline_witness :
  exists r doc,
    associate colliding_buckets = Some r
    /\ pipeline_writes (fun _ => "0a1b2c3d") colliding_buckets r "P" "O" "Kubernetes"
       = [("PlaceholderApp.yaml", doc)]
    /\ length (stages_of doc) = 2%nat.
Proof.
  destruct (associate colliding_buckets) as [r|] eqn:E; [|discriminate E].
  destruct (placeholder_pipeline (fun _ => "0a1b2c3d") colliding_buckets r
              "P" "O" "Kubernetes" eq_refl E) as (doc & Hw & _ & Hlen).
  exists r, doc. split; [reflexivity|]. split; [exact Hw | exact Hlen].
Defined.

(** ** Size of the flattened sequence *)











